(** * Solar: the turn-resolution engine

    A shallow embedding of [solar/structures.py] and [solar/state.py].

    Python floats are read as exact rationals ([Q], compared with [==]);
    Python ints are [Z].  A method of [GameState] becomes a function from
    the state before the call to an outcome (a value or the exception
    raised) paired with the state after the call, so that what a failing
    call leaves behind can be stated. *)

From Stdlib Require Import ZArith QArith Qminmax Lqa Lia String Bool.
From stdpp Require Import base list.

Open Scope Q_scope.

(** ** Python primitives on numbers and lists *)

Definition Qlt_bool (a b : Q) : bool := negb (Qle_bool b a).

(** [min(a, b)]: the first argument unless the second is strictly smaller. *)
Definition py_min (a b : Q) : Q := if Qlt_bool b a then b else a.

(** [max(a, b)]: the first argument unless the second is strictly larger. *)
Definition py_max (a b : Q) : Q := if Qlt_bool a b then b else a.

(** Truth value of a float: anything but zero. *)
Definition truthy (q : Q) : bool := negb (Qeq_bool q 0).

(** [l[i]] on a Python list: a negative index counts from the end, and
    [None] stands for [IndexError]. *)
Definition py_getitem {A : Type} (l : list A) (i : Z) : option A :=
  if (0 <=? i)%Z then l !! Z.to_nat i
  else if (0 <=? Z.of_nat (length l) + i)%Z
       then l !! Z.to_nat (Z.of_nat (length l) + i)
       else None.

(** [enumerate(l)], counting from [i]. *)
Fixpoint enumerate_from {A : Type} (i : Z) (l : list A) : list (Z * A) :=
  match l with
  | [] => []
  | a :: l' => (i, a) :: enumerate_from (i + 1) l'
  end.

Definition enumerate {A : Type} (l : list A) : list (Z * A) :=
  enumerate_from 0 l.

(** ** structures.py *)

Record Structure : Type := mkStructure {
  name : string;
  base_production : Q;
  upkeep : Q;
  storage_capacity : Q;
  adjacency_bonus : Q
}.

(** [Structure.production(self, sunlight, neighbors)] *)
Definition production (self : Structure) (sunlight : Q) (neighbors : Z) : Q :=
  let bonus := adjacency_bonus self * inject_Z neighbors in
  let raw := (base_production self + bonus) * sunlight in
  py_max 0 raw.

Definition SOLAR_PANEL : Structure :=
  mkStructure "Solar Panel" 4.0 0.25 0 0.4.

Definition BATTERY_BANK : Structure :=
  mkStructure "Battery Bank" 0 0.05 12.0 0.

Definition HABITAT_DOME : Structure :=
  mkStructure "Habitat Dome" 0 1.6 0 0.

(** ** state.py: exceptions, report, state *)

Inductive exn : Type :=
  | PlacementError_outside    (* "Tile (x, y) is outside the board" *)
  | PlacementError_occupied   (* "Tile (x, y) is already occupied" *)
  | PlacementError_empty      (* "Tile (x, y) is empty" *)
  | ValueError_dimensions     (* "Board dimensions must be positive" *)
  | ValueError_sunlight       (* "Sunlight cannot be negative" *)
  | ValueError_demand         (* "Demand cannot be negative" *)
  | IndexError                (* list index out of range *)
  | ZeroDivisionError.        (* modulo by a zero width *)

Inductive outcome (A : Type) : Type :=
  | Ok (a : A)
  | Raise (e : exn).
Arguments Ok {A} a.
Arguments Raise {A} e.

Definition raises {A : Type} (o : outcome A) : Prop :=
  match o with Ok _ => False | Raise _ => True end.

Module Report.

Record EnergyReport : Type := mkEnergyReport {
  production : Q;
  consumption : Q;
  stored : Q;
  discharged : Q;
  unmet_demand : Q;
  overflow : Q
}.

(** The [net] property. *)
Definition net (self : EnergyReport) : Q :=
  production self - consumption self.

End Report.
Export Report (EnergyReport, mkEnergyReport).

Record GameState : Type := mkGameState {
  width : Z;
  height : Z;
  _tiles : list (option Structure);
  energy_storage : Q;
  max_storage : Q;
  unmet_demand : Q
}.

Definition set_tiles (t : list (option Structure)) (self : GameState) :=
  mkGameState (width self) (height self) t
              (energy_storage self) (max_storage self) (unmet_demand self).

Definition set_energy_storage (e : Q) (self : GameState) :=
  mkGameState (width self) (height self) (_tiles self)
              e (max_storage self) (unmet_demand self).

Definition set_max_storage (m : Q) (self : GameState) :=
  mkGameState (width self) (height self) (_tiles self)
              (energy_storage self) m (unmet_demand self).

Definition set_unmet_demand (u : Q) (self : GameState) :=
  mkGameState (width self) (height self) (_tiles self)
              (energy_storage self) (max_storage self) u.

(** A method: the state before, to the outcome and the state after. *)
Definition method (A : Type) : Type := GameState -> outcome A * GameState.

(** [GameState.__init__(width, height)] *)
Definition GameState_init (width height : Z) : outcome GameState :=
  if ((width <=? 0) || (height <=? 0))%Z then Raise ValueError_dimensions
  else Ok (mkGameState width height
             (replicate (Z.to_nat (width * height)) None) 0 0 0).

(** ** Board helpers *)

Definition _index (self : GameState) (x y : Z) : outcome Z :=
  if negb ((0 <=? x) && (x <? width self) && (0 <=? y) && (y <? height self))%Z
  then Raise PlacementError_outside
  else Ok (y * width self + x)%Z.

(** [_neighbors(index)], in the order the generator yields; [%] and [//]
    raise on a zero width. *)
Definition _neighbors (self : GameState) (index : Z) : outcome (list Z) :=
  if (width self =? 0)%Z then Raise ZeroDivisionError
  else
    let x := (index mod width self)%Z in
    let y := (index / width self)%Z in
    Ok ((if (x >? 0)%Z then [index - 1] else []) ++
        (if (x <? width self - 1)%Z then [index + 1] else []) ++
        (if (y >? 0)%Z then [index - width self] else []) ++
        (if (y <? height self - 1)%Z then [index + width self] else []))%Z.

(** The generator expression summed by [_adjacent_same_type]: one per
    neighbour whose tile holds a structure of the same name. *)
Fixpoint count_same_type (tiles : list (option Structure)) (nm : string)
    (neighbors : list Z) : outcome Z :=
  match neighbors with
  | [] => Ok 0%Z
  | neighbor :: rest =>
      match py_getitem tiles neighbor with
      | None => Raise IndexError
      | Some cell =>
          let hit := match cell with
                     | Some other => String.eqb (name other) nm
                     | None => false
                     end in
          match count_same_type tiles nm rest with
          | Raise e => Raise e
          | Ok k => Ok ((if hit then 1 else 0) + k)%Z
          end
      end
  end.

Definition _adjacent_same_type (self : GameState) (index : Z) : outcome Z :=
  match py_getitem (_tiles self) index with
  | None => Raise IndexError
  | Some None => Ok 0%Z
  | Some (Some structure) =>
      match _neighbors self index with
      | Raise e => Raise e
      | Ok ns => count_same_type (_tiles self) (name structure) ns
      end
  end.

(** ** Public API *)

(** [place_structure(x, y, structure)] *)
Definition place_structure (x y : Z) (structure : Structure) : method unit :=
  fun self =>
  match _index self x y with
  | Raise e => (Raise e, self)
  | Ok index =>
      match py_getitem (_tiles self) index with
      | None => (Raise IndexError, self)
      | Some (Some _) => (Raise PlacementError_occupied, self)
      | Some None =>
          let self :=
            set_tiles (<[Z.to_nat index := Some structure]> (_tiles self)) self in
          let self :=
            if truthy (storage_capacity structure)
            then set_max_storage
                   (max_storage self + storage_capacity structure) self
            else self in
          (Ok tt, self)
      end
  end.

(** [remove_structure(x, y)] *)
Definition remove_structure (x y : Z) : method unit :=
  fun self =>
  match _index self x y with
  | Raise e => (Raise e, self)
  | Ok index =>
      match py_getitem (_tiles self) index with
      | None => (Raise IndexError, self)
      | Some None => (Raise PlacementError_empty, self)
      | Some (Some structure) =>
          let self := set_tiles (<[Z.to_nat index := None]> (_tiles self)) self in
          let self :=
            if truthy (storage_capacity structure)
            then
              let self :=
                set_max_storage
                  (py_max 0 (max_storage self - storage_capacity structure))
                  self in
              set_energy_storage
                (py_min (energy_storage self) (max_storage self)) self
            else self in
          (Ok tt, self)
      end
  end.

(** [structures()]: a tuple copied from the tiles. *)
Definition structures : method (list (option Structure)) :=
  fun self => (Ok (_tiles self), self).

(** The three accumulators of the loop of [advance_turn]. *)
Record totals : Type := mkTotals {
  acc_production : Q;
  acc_upkeep : Q;
  acc_storage_capacity : Q
}.

(** The body of [for idx, structure in enumerate(self._tiles)], run over
    the cells still to be visited. *)
Fixpoint scan_tiles (self : GameState) (sunlight : Q)
    (cells : list (Z * option Structure)) (acc : totals) : outcome totals :=
  match cells with
  | [] => Ok acc
  | (idx, None) :: rest => scan_tiles self sunlight rest acc
  | (idx, Some structure) :: rest =>
      let upkeep' := acc_upkeep acc + upkeep structure in
      let storage_capacity' :=
        if truthy (storage_capacity structure)
        then acc_storage_capacity acc + storage_capacity structure
        else acc_storage_capacity acc in
      match _adjacent_same_type self idx with
      | Raise e => Raise e
      | Ok neighbors =>
          let production' :=
            acc_production acc + production structure sunlight neighbors in
          scan_tiles self sunlight rest
                     (mkTotals production' upkeep' storage_capacity')
      end
  end.

(** [advance_turn(sunlight, demand)] *)
Definition advance_turn (sunlight demand : Q) : method EnergyReport :=
  fun self =>
  if Qlt_bool sunlight 0 then (Raise ValueError_sunlight, self)
  else if Qlt_bool demand 0 then (Raise ValueError_demand, self)
  else
    match scan_tiles self sunlight (enumerate (_tiles self)) (mkTotals 0 0 0) with
    | Raise e => (Raise e, self)
    | Ok t =>
        let production := acc_production t in
        let upkeep := acc_upkeep t in
        let storage_capacity := acc_storage_capacity t in
        let self := set_max_storage storage_capacity self in
        let self :=
          set_energy_storage
            (py_min (energy_storage self) (max_storage self)) self in
        let net := production - upkeep - demand in
        let '(stored, discharged, overflow, unmet, self) :=
          if Qle_bool 0 net then
            let available_capacity := max_storage self - energy_storage self in
            let stored := py_min net available_capacity in
            let self := set_energy_storage (energy_storage self + stored) self in
            let overflow := net - stored in
            (stored, 0, overflow, 0, self)
          else
            let requirement := - net in
            let discharged := py_min (energy_storage self) requirement in
            let self :=
              set_energy_storage (energy_storage self - discharged) self in
            let unmet := requirement - discharged in
            let self := set_unmet_demand (unmet_demand self + unmet) self in
            (0, discharged, 0, unmet, self) in
        let self :=
          if Qeq_bool (max_storage self) 0
             && negb (Qeq_bool (energy_storage self) 0)
          then set_energy_storage 0 self
          else self in
        (Ok (mkEnergyReport production (upkeep + demand)
               stored discharged unmet overflow),
         self)
    end.

(** *** [advance_turn] in two parts

    The same statements cut at the guard: [before_guard] runs the
    validation, the scan, the new ceiling and clamp and the charge or
    discharge, and returns the report (built from locals only) with the
    state in which the guard is reached; [degenerate_guard] is the
    guard.  Lemma [advance_turn_guard] puts them back together. *)

(** The charge / discharge branch of [advance_turn]. *)
Record flows : Type := mkFlows {
  fl_stored : Q;
  fl_discharged : Q;
  fl_overflow : Q;
  fl_unmet : Q
}.

Definition settle (net : Q) (self : GameState) : flows * GameState :=
  if Qle_bool 0 net then
    let available_capacity := max_storage self - energy_storage self in
    let stored := py_min net available_capacity in
    let self := set_energy_storage (energy_storage self + stored) self in
    let overflow := net - stored in
    (mkFlows stored 0 overflow 0, self)
  else
    let requirement := - net in
    let discharged := py_min (energy_storage self) requirement in
    let self := set_energy_storage (energy_storage self - discharged) self in
    let unmet := requirement - discharged in
    let self := set_unmet_demand (unmet_demand self + unmet) self in
    (mkFlows 0 discharged 0 unmet, self).

Definition before_guard (sunlight demand : Q) : method EnergyReport :=
  fun self =>
  if Qlt_bool sunlight 0 then (Raise ValueError_sunlight, self)
  else if Qlt_bool demand 0 then (Raise ValueError_demand, self)
  else
    match scan_tiles self sunlight (enumerate (_tiles self)) (mkTotals 0 0 0) with
    | Raise e => (Raise e, self)
    | Ok t =>
        let self := set_max_storage (acc_storage_capacity t) self in
        let self :=
          set_energy_storage
            (py_min (energy_storage self) (max_storage self)) self in
        let net := acc_production t - acc_upkeep t - demand in
        let '(fl, self) := settle net self in
        (Ok (mkEnergyReport (acc_production t) (acc_upkeep t + demand)
               (fl_stored fl) (fl_discharged fl) (fl_unmet fl) (fl_overflow fl)),
         self)
    end.

(** [if self.max_storage == 0 and self.energy_storage != 0] *)
Definition degenerate (self : GameState) : bool :=
  Qeq_bool (max_storage self) 0 && negb (Qeq_bool (energy_storage self) 0).

Definition degenerate_guard (self : GameState) : GameState :=
  if degenerate self then set_energy_storage 0 self else self.

(** [GameState.with_defaults()] *)
Definition with_defaults : outcome GameState :=
  match GameState_init 3 3 with
  | Raise e => Raise e
  | Ok state =>
      match place_structure 1 0 BATTERY_BANK state with
      | (Raise e, _) => Raise e
      | (Ok _, state) =>
          match place_structure 0 1 BATTERY_BANK state with
          | (Raise e, _) => Raise e
          | (Ok _, state) => Ok state
          end
      end
  end.

(** ** Callers: sequences of calls on one engine *)

Inductive call : Type :=
  | Place (x y : Z) (structure : Structure)
  | Remove (x y : Z)
  | Snapshot
  | Advance (sunlight demand : Q).

(** The state a call leaves behind, whether it returned or raised. *)
Definition after (c : call) (self : GameState) : GameState :=
  match c with
  | Place x y structure => snd (place_structure x y structure self)
  | Remove x y => snd (remove_structure x y self)
  | Snapshot => snd (structures self)
  | Advance sunlight demand => snd (advance_turn sunlight demand self)
  end.

Definition run (cs : list call) (self : GameState) : GameState :=
  fold_left (fun s c => after c s) cs self.

(** Engines a caller can hold: built by the constructor, then driven by
    calls that place only structures satisfying [P]. *)
Definition places_only (P : Structure -> Prop) (c : call) : Prop :=
  match c with
  | Place _ _ structure => P structure
  | _ => True
  end.

Inductive reachable_with (P : Structure -> Prop) : GameState -> Prop :=
  | reach_init w h s :
      GameState_init w h = Ok s -> reachable_with P s
  | reach_call c s :
      reachable_with P s -> places_only P c -> reachable_with P (after c s).

Definition reachable : GameState -> Prop := reachable_with (fun _ => True).

Definition capacity_nonneg (structure : Structure) : Prop :=
  0 <= storage_capacity structure.

(** ** The board by coordinates, and the totals of a turn *)

(** The representation invariant set up by the constructor. *)
Definition wf (self : GameState) : Prop :=
  (0 < width self)%Z /\ (0 < height self)%Z /\
  length (_tiles self) = Z.to_nat (width self * height self).

Definition in_bounds (self : GameState) (x y : Z) : Prop :=
  (0 <= x < width self)%Z /\ (0 <= y < height self)%Z.

(** The cell at a coordinate; [None] off the board or when empty. *)
Definition cell_at (self : GameState) (x y : Z) : option Structure :=
  if ((0 <=? x) && (x <? width self) && (0 <=? y) && (y <? height self))%Z
  then default None (_tiles self !! Z.to_nat (y * width self + x))
  else None.

Definition same_name (nm : string) (c : option Structure) : Z :=
  match c with
  | Some other => if String.eqb (name other) nm then 1 else 0
  | None => 0
  end.

(** Orthogonal neighbours of [(x, y)] on the board holding a structure
    named [nm]: left, right, up, down; no diagonals, no wrap-around. *)
Definition orthogonal_same_type (self : GameState) (x y : Z) (nm : string) : Z :=
  (same_name nm (cell_at self (x - 1) y) +
   same_name nm (cell_at self (x + 1) y) +
   same_name nm (cell_at self x (y - 1)) +
   same_name nm (cell_at self x (y + 1)))%Z.

(** A sum over the populated cells of an enumerated tile list. *)
Fixpoint sum_populated (f : Z -> Structure -> Q)
    (cells : list (Z * option Structure)) : Q :=
  match cells with
  | [] => 0
  | (_, None) :: rest => sum_populated f rest
  | (i, Some structure) :: rest => f i structure + sum_populated f rest
  end.

Definition total_production (self : GameState) (sunlight : Q) : Q :=
  sum_populated
    (fun i structure =>
       production structure sunlight
         (orthogonal_same_type self (i mod width self) (i / width self)
                               (name structure)))
    (enumerate (_tiles self)).

Definition total_upkeep (self : GameState) : Q :=
  sum_populated (fun _ structure => upkeep structure) (enumerate (_tiles self)).

Definition total_capacity (self : GameState) : Q :=
  sum_populated (fun _ structure => storage_capacity structure)
                (enumerate (_tiles self)).

(** The sum of [g] over the structures of a tile list. *)
Fixpoint sum_structures (g : Structure -> Q) (l : list (option Structure)) : Q :=
  match l with
  | [] => 0
  | None :: rest => sum_structures g rest
  | Some structure :: rest => g structure + sum_structures g rest
  end.

(** Every structure on the board has a non-negative storage capacity. *)
Definition capacities_nonneg (l : list (option Structure)) : Prop :=
  Forall (fun c => match c with
                   | Some structure => capacity_nonneg structure
                   | None => True
                   end) l.

(** The data-model invariants of the storage fields. *)
Definition storage_consistent (self : GameState) : Prop :=
  wf self /\ capacities_nonneg (_tiles self) /\
  0 <= energy_storage self /\ energy_storage self <= max_storage self /\
  max_storage self == total_capacity self.

(** A call raises. *)
Definition fails (c : call) (self : GameState) : Prop :=
  match c with
  | Place x y structure => raises (fst (place_structure x y structure self))
  | Remove x y => raises (fst (remove_structure x y self))
  | Snapshot => raises (fst (structures self))
  | Advance sunlight demand => raises (fst (advance_turn sunlight demand self))
  end.

(** The error conditions of the interface, call by call. *)
Definition error_condition (c : call) (self : GameState) : Prop :=
  match c with
  | Place x y _ =>
      ~ in_bounds self x y \/ exists other, cell_at self x y = Some other
  | Remove x y => ~ in_bounds self x y \/ cell_at self x y = None
  | Snapshot => False
  | Advance sunlight demand => sunlight < 0 \/ demand < 0
  end.

(** ** Boards used as examples *)

(** The engine [GameState(2, 1)] returns. *)
Definition board_2x1 : GameState := mkGameState 2 1 [None; None] 0 0 0.

(** The engine [GameState(2, 2)] returns. *)
Definition board_2x2 : GameState :=
  mkGameState 2 2 [None; None; None; None] 0 0 0.

(** The board of the second test: a solar panel beside a battery bank. *)
Definition storage_board : GameState :=
  run [Place 0 0 SOLAR_PANEL; Place 1 0 BATTERY_BANK] board_2x2.

(** A structure whose storage capacity is below zero: the dataclass takes
    any float. *)
Definition LEAKY_CELL : Structure := mkStructure "Leaky Cell" 0 0 (-5) 0.

(** [GameState(2, 1)] after placing a leaky cell. *)
Definition leaky_board : GameState := run [Place 0 0 LEAKY_CELL] board_2x1.

(** [GameState(2, 1)] after placing a leaky cell, one dark turn, and the
    removal of the cell: an empty board again. *)
Definition drained_board : GameState :=
  run [Place 0 0 LEAKY_CELL; Advance 0 0; Remove 0 0] board_2x1.

(** ** The round trip, the guard and the accounting of a turn *)

(** Placing [structure] on [(x, y)] and removing it at once: both calls
    return, [max_storage] is back to its value, the cell is empty. *)
Definition roundtrip_restores (self : GameState) (x y : Z)
    (structure : Structure) : Prop :=
  let placed := place_structure x y structure self in
  let removed := remove_structure x y (snd placed) in
  fst placed = Ok tt /\ fst removed = Ok tt /\
  max_storage (snd removed) == max_storage self /\
  cell_at (snd removed) x y = None.

(** The guard's condition holds when a turn reaches it. *)
Definition guard_fires (sunlight demand : Q) (self : GameState) : bool :=
  match before_guard sunlight demand self with
  | (Ok _, at_guard) => degenerate at_guard
  | (Raise _, _) => false
  end.

(** The accounting of one turn, on the fields as they are when the call
    is made. *)
Definition turn_accounting (self : GameState) (sunlight demand : Q) : Prop :=
  exists (r : EnergyReport) (self' : GameState),
    advance_turn sunlight demand self = (Ok r, self') /\
    let P := total_production self sunlight in
    let U := total_upkeep self in
    let net := P - U - demand in
    Report.production r == P /\
    Report.consumption r == U + demand /\
    (0 <= net ->
       Report.stored r == Qmin net (max_storage self - energy_storage self) /\
       energy_storage self' == energy_storage self + Report.stored r /\
       Report.overflow r == net - Report.stored r /\
       Report.discharged r == 0 /\
       Report.unmet_demand r == 0) /\
    (net < 0 ->
       Report.discharged r == Qmin (energy_storage self) (- net) /\
       energy_storage self' == energy_storage self - Report.discharged r /\
       Report.unmet_demand r == - net - Report.discharged r /\
       unmet_demand self' == unmet_demand self + Report.unmet_demand r /\
       Report.stored r == 0 /\
       Report.overflow r == 0).

(** ** The first scenario of the test suite *)

(** Two cells share an edge. *)
Definition orthogonally_adjacent (x1 y1 x2 y2 : Z) : Prop :=
  (Z.abs (x1 - x2) + Z.abs (y1 - y2) = 1)%Z.

(** A producer with the parameters of the scenario, and no storage. *)
Definition scenario_producer (p : Structure) : Prop :=
  base_production p == 4.0 /\ adjacency_bonus p == 0.4 /\
  upkeep p == 0.25 /\ storage_capacity p == 0.

(** ** Two producers and nothing else *)

(** The board holds [p1] on [(x1, y1)], [p2] on [(x2, y2)], and no other
    structure. *)
Definition holds_exactly_two (self : GameState) (x1 y1 x2 y2 : Z)
    (p1 p2 : Structure) : Prop :=
  in_bounds self x1 y1 /\ in_bounds self x2 y2 /\
  forall x y : Z,
    cell_at self x y =
      if decide (x = x2 /\ y = y2) then Some p2
      else if decide (x = x1 /\ y = y1) then Some p1
      else None.

(** The three parameters the scenario names. *)
Definition claimed_producer (p : Structure) : Prop :=
  base_production p == 4.0 /\ adjacency_bonus p == 0.4 /\ upkeep p == 0.25.

(** The report of the scenario. *)
Definition scenario_report (r : EnergyReport) : Prop :=
  Report.production r == 8.8 /\
  Report.consumption r == 0.5 /\
  Report.overflow r == 8.3 /\
  Report.stored r == 0 /\
  Report.discharged r == 0 /\
  Report.unmet_demand r == 0.

(** [advance_turn(1.0, 0)] returns the report of the scenario. *)
Definition scenario_turn (self : GameState) : Prop :=
  exists (r : EnergyReport) (self' : GameState),
    advance_turn 1 0 self = (Ok r, self') /\ scenario_report r.

(** The report of a call that returned; all zero for one that raised. *)
Definition report_of (o : outcome EnergyReport * GameState) : EnergyReport :=
  match fst o with
  | Ok r => r
  | Raise _ => mkEnergyReport 0 0 0 0 0 0
  end.

(** [drained_board] with two solar panels side by side. *)
Definition drained_two : GameState :=
  run [Place 0 0 SOLAR_PANEL; Place 1 0 SOLAR_PANEL] drained_board.

(** A producer with the scenario's three parameters and a storage
    capacity of 10, and a new board with two of them side by side. *)
Definition STORING_PANEL : Structure :=
  mkStructure "Storing Panel" 4.0 0.25 10 0.4.

Definition storing_two : GameState :=
  run [Place 0 0 STORING_PANEL; Place 1 0 STORING_PANEL] board_2x1.

(** * Proofs *)

(** ** Comparisons on rationals *)

Lemma Qle_bool_false (a b : Q) : Qle_bool a b = false -> b < a.
Proof.
  intros H. destruct (Qlt_le_dec b a) as [Hlt | Hle]; [exact Hlt |].
  apply Qle_bool_iff in Hle. congruence.
Qed.

Lemma Qlt_bool_true (a b : Q) : Qlt_bool a b = true -> a < b.
Proof.
  unfold Qlt_bool. intros H. apply negb_true_iff in H.
  now apply Qle_bool_false.
Qed.

Lemma Qlt_bool_false (a b : Q) : Qlt_bool a b = false -> b <= a.
Proof.
  unfold Qlt_bool. intros H. apply negb_false_iff in H.
  now apply Qle_bool_iff.
Qed.

Lemma truthy_false (q : Q) : truthy q = false -> q == 0.
Proof.
  unfold truthy. intros H. apply negb_false_iff in H.
  now apply Qeq_bool_iff.
Qed.

Lemma truthy_true (q : Q) : truthy q = true -> ~ q == 0.
Proof.
  unfold truthy. intros H. apply negb_true_iff in H.
  now apply Qeq_bool_neq.
Qed.

(** Split on every comparison of the goal, leaving each branch with the
    order fact it was taken under. *)
Ltac qcases :=
  repeat match goal with
  | |- context [Qlt_bool ?a ?b] =>
      let H := fresh "Hc" in
      destruct (Qlt_bool a b) eqn:H;
      [apply Qlt_bool_true in H | apply Qlt_bool_false in H]
  | |- context [Qle_bool ?a ?b] =>
      let H := fresh "Hc" in
      destruct (Qle_bool a b) eqn:H;
      [apply Qle_bool_iff in H | apply Qle_bool_false in H]
  | |- context [truthy ?a] =>
      let H := fresh "Hc" in
      destruct (truthy a) eqn:H;
      [apply truthy_true in H | apply truthy_false in H]
  | |- context [Qeq_bool ?a ?b] =>
      let H := fresh "Hc" in
      destruct (Qeq_bool a b) eqn:H;
      [apply Qeq_bool_iff in H | apply Qeq_bool_neq in H]
  end.

Lemma py_min_Qmin (a b : Q) : py_min a b == Qmin a b.
Proof.
  unfold py_min. qcases.
  - rewrite Q.min_r; [reflexivity | lra].
  - rewrite Q.min_l; [reflexivity | lra].
Qed.

Lemma py_max_Qmax (a b : Q) : py_max a b == Qmax a b.
Proof.
  unfold py_max. qcases.
  - rewrite Q.max_r; [reflexivity | lra].
  - rewrite Q.max_l; [reflexivity | lra].
Qed.

Lemma py_min_cases (a b : Q) :
  (a <= b /\ py_min a b = a) \/ (b < a /\ py_min a b = b).
Proof. unfold py_min. qcases; [right | left]; split; auto. Qed.

Lemma py_max_cases (a b : Q) :
  (b <= a /\ py_max a b = a) \/ (a < b /\ py_max a b = b).
Proof. unfold py_max. qcases; [right | left]; split; auto. Qed.

(** ** The production formula *)

Lemma production_nonneg (st : Structure) (sunlight : Q) (n : Z) :
  0 <= production st sunlight n.
Proof. unfold production, py_max. qcases; lra. Qed.

(** ** [advance_turn], cut at the guard *)

Lemma advance_turn_guard (sunlight demand : Q) (s : GameState) :
  advance_turn sunlight demand s =
    match before_guard sunlight demand s with
    | (Raise e, s') => (Raise e, s')
    | (Ok report, at_guard) => (Ok report, degenerate_guard at_guard)
    end.
Proof.
  unfold advance_turn, before_guard, settle, degenerate_guard, degenerate.
  destruct (Qlt_bool sunlight 0); [reflexivity |].
  destruct (Qlt_bool demand 0); [reflexivity |].
  destruct (scan_tiles s sunlight (enumerate (_tiles s)) (mkTotals 0 0 0))
    as [t | e]; [| reflexivity].
  cbn zeta.
  destruct (Qle_bool 0 (acc_production t - acc_upkeep t - demand));
    reflexivity.
Qed.

(** ** Indexing a well-formed board *)

Lemma py_getitem_nonneg {A : Type} (l : list A) (i : Z) :
  (0 <= i)%Z -> py_getitem l i = l !! Z.to_nat i.
Proof.
  intros Hi. unfold py_getitem.
  destruct (0 <=? i)%Z eqn:E; [reflexivity | lia].
Qed.

Lemma wf_area (s : GameState) :
  wf s -> Z.of_nat (length (_tiles s)) = (width s * height s)%Z.
Proof. intros (Hw & Hh & Hlen). rewrite Hlen. nia. Qed.

Lemma index_in_area (s : GameState) (x y : Z) :
  in_bounds s x y -> (0 <= y * width s + x < width s * height s)%Z.
Proof. unfold in_bounds. nia. Qed.

Lemma index_ok (s : GameState) (x y : Z) :
  in_bounds s x y -> _index s x y = Ok (y * width s + x)%Z.
Proof.
  unfold in_bounds, _index. intros [Hx Hy].
  replace ((0 <=? x) && (x <? width s) && (0 <=? y) && (y <? height s))%Z
    with true; [reflexivity |].
  symmetry. repeat (apply andb_true_intro; split); lia.
Qed.

Lemma index_raises (s : GameState) (x y : Z) :
  ~ in_bounds s x y -> _index s x y = Raise PlacementError_outside.
Proof.
  unfold in_bounds, _index. intros Hout.
  destruct ((0 <=? x) && (x <? width s) && (0 <=? y) && (y <? height s))%Z
    eqn:E; [| reflexivity].
  exfalso. apply Hout.
  repeat (apply andb_prop in E; destruct E as [E ?]). lia.
Qed.

Lemma in_bounds_dec (s : GameState) (x y : Z) :
  {in_bounds s x y} + {~ in_bounds s x y}.
Proof.
  unfold in_bounds.
  destruct (Z_le_dec 0 x), (Z_lt_dec x (width s)),
           (Z_le_dec 0 y), (Z_lt_dec y (height s));
    (left; lia) || (right; lia).
Qed.

Lemma getitem_cell (s : GameState) (x y : Z) :
  wf s -> in_bounds s x y ->
  py_getitem (_tiles s) (y * width s + x) = Some (cell_at s x y).
Proof.
  intros Hwf Hin. pose proof (index_in_area s x y Hin) as Hidx.
  pose proof (wf_area s Hwf) as Hlen.
  rewrite py_getitem_nonneg by lia.
  unfold cell_at. destruct Hin as [Hx Hy].
  replace ((0 <=? x) && (x <? width s) && (0 <=? y) && (y <? height s))%Z
    with true by (symmetry; repeat (apply andb_true_intro; split); lia).
  destruct (lookup_lt_is_Some_2 (_tiles s) (Z.to_nat (y * width s + x)))
    as [c Hc]; [lia |].
  rewrite Hc. reflexivity.
Qed.

Lemma cell_at_outside (s : GameState) (x y : Z) :
  ~ in_bounds s x y -> cell_at s x y = None.
Proof.
  unfold in_bounds, cell_at. intros Hout.
  destruct ((0 <=? x) && (x <? width s) && (0 <=? y) && (y <? height s))%Z
    eqn:E; [| reflexivity].
  exfalso. apply Hout.
  repeat (apply andb_prop in E; destruct E as [E ?]). lia.
Qed.

Lemma coords_of_index (s : GameState) (i : Z) :
  wf s -> (0 <= i < width s * height s)%Z ->
  in_bounds s (i mod width s) (i / width s) /\
  i = ((i / width s) * width s + i mod width s)%Z.
Proof.
  intros (Hw & Hh & _) Hi. unfold in_bounds.
  pose proof (Z.mod_pos_bound i (width s) Hw).
  pose proof (Z.div_mod i (width s) ltac:(lia)).
  assert (0 <= i / width s)%Z by (apply Z.div_pos; lia).
  assert (i / width s < height s)%Z
    by (apply Z.div_lt_upper_bound; lia).
  lia.
Qed.

Lemma hit_same_name (nm : string) (c : option Structure) :
  (if match c with
      | Some other => String.eqb (name other) nm
      | None => false
      end then 1 else 0)%Z = same_name nm c.
Proof. destruct c; reflexivity. Qed.

(** On a well-formed board the index arithmetic of [_neighbors] visits
    exactly the orthogonal neighbours of the cell's coordinates, and every
    lookup stays inside the list. *)
Lemma adjacent_same_type_coords (s : GameState) (i : Z) (st : Structure) :
  wf s -> (0 <= i < width s * height s)%Z ->
  py_getitem (_tiles s) i = Some (Some st) ->
  _adjacent_same_type s i =
    Ok (orthogonal_same_type s (i mod width s) (i / width s) (name st)).
Proof.
  intros Hwf Hi Hst.
  destruct (coords_of_index s i Hwf Hi) as [Hin Hdecomp].
  unfold _adjacent_same_type, _neighbors, orthogonal_same_type.
  rewrite Hst.
  set (x := (i mod width s)%Z) in *. set (y := (i / width s)%Z) in *.
  destruct Hwf as (Hw & Hh & Hlen).
  assert (Hwf : wf s) by (repeat split; assumption).
  destruct Hin as [Hx Hy].
  destruct (width s =? 0)%Z eqn:Ew; [lia |].
  assert (Hcell : forall x' y', in_bounds s x' y' ->
             py_getitem (_tiles s) (y' * width s + x') = Some (cell_at s x' y'))
    by (intros; now apply getitem_cell).
  replace (i - 1)%Z with (y * width s + (x - 1))%Z by lia.
  replace (i + 1)%Z with (y * width s + (x + 1))%Z by lia.
  replace (i - width s)%Z with ((y - 1) * width s + x)%Z by lia.
  replace (i + width s)%Z with ((y + 1) * width s + x)%Z by lia.
  destruct (x >? 0)%Z eqn:E1; destruct (x <? width s - 1)%Z eqn:E2;
  destruct (y >? 0)%Z eqn:E3; destruct (y <? height s - 1)%Z eqn:E4;
  cbn [app count_same_type];
  rewrite ?(Hcell (x - 1)%Z y), ?(Hcell (x + 1)%Z y),
          ?(Hcell x (y - 1)%Z), ?(Hcell x (y + 1)%Z)
    by (unfold in_bounds; lia);
  rewrite ?hit_same_name;
  rewrite ?(cell_at_outside s (x - 1) y), ?(cell_at_outside s (x + 1) y),
          ?(cell_at_outside s x (y - 1)), ?(cell_at_outside s x (y + 1))
    by (unfold in_bounds; lia);
  cbn [same_name]; f_equal; lia.
Qed.

(** ** The scan of the tiles *)

Lemma sum_populated_structures (g : Structure -> Q)
    (l : list (option Structure)) (k : Z) :
  sum_populated (fun _ st => g st) (enumerate_from k l) = sum_structures g l.
Proof.
  revert k. induction l as [| [st |] l IH]; intros k; cbn; [reflexivity | |];
    now rewrite IH.
Qed.

Lemma scan_tiles_sums (s : GameState) (sunlight : Q) :
  wf s ->
  forall (l : list (option Structure)) (k : Z) (acc : totals),
    (0 <= k)%Z ->
    (forall j c, l !! j = Some c ->
                 _tiles s !! (Z.to_nat k + j)%nat = Some c) ->
    exists t,
      scan_tiles s sunlight (enumerate_from k l) acc = Ok t /\
      acc_production t ==
        acc_production acc +
        sum_populated
          (fun i st =>
             production st sunlight
               (orthogonal_same_type s (i mod width s) (i / width s) (name st)))
          (enumerate_from k l) /\
      acc_upkeep t == acc_upkeep acc + sum_structures upkeep l /\
      acc_storage_capacity t ==
        acc_storage_capacity acc + sum_structures storage_capacity l.
Proof.
  intros Hwf l. induction l as [| c l IH]; intros k acc Hk Hsuffix.
  - exists acc. cbn. repeat split; lra.
  - assert (Htail : forall j c', l !! j = Some c' ->
               _tiles s !! (Z.to_nat (k + 1) + j)%nat = Some c').
    { intros j c' Hj. specialize (Hsuffix (S j) c' Hj).
      rewrite <- Hsuffix. f_equal. lia. }
    pose proof (Hsuffix 0%nat c eq_refl) as Hhead.
    rewrite Nat.add_0_r in Hhead.
    destruct c as [st |]; cbn [enumerate_from scan_tiles sum_populated
                                 sum_structures].
    + assert (Hrange : (0 <= k < width s * height s)%Z).
      { apply lookup_lt_Some in Hhead. rewrite <- (wf_area s Hwf). lia. }
      rewrite (adjacent_same_type_coords s k st Hwf Hrange)
        by (rewrite py_getitem_nonneg by lia; exact Hhead).
      destruct (IH (k + 1)%Z
                  (mkTotals
                     (acc_production acc +
                      production st sunlight
                        (orthogonal_same_type s (k mod width s) (k / width s)
                                              (name st)))
                     (acc_upkeep acc + upkeep st)
                     (if truthy (storage_capacity st)
                      then acc_storage_capacity acc + storage_capacity st
                      else acc_storage_capacity acc))
                  ltac:(lia) Htail)
        as (t & Hscan & Hp & Hu & Hc).
      exists t. cbn [acc_production acc_upkeep acc_storage_capacity] in *.
      split; [exact Hscan |]. repeat split; try lra.
      rewrite Hc. qcases; lra.
    + destruct (IH (k + 1)%Z acc ltac:(lia) Htail) as (t & Hscan & Hp & Hu & Hc).
      exists t. repeat split; assumption.
Qed.

Lemma scan_tiles_totals (s : GameState) (sunlight : Q) :
  wf s ->
  exists t,
    scan_tiles s sunlight (enumerate (_tiles s)) (mkTotals 0 0 0) = Ok t /\
    acc_production t == total_production s sunlight /\
    acc_upkeep t == total_upkeep s /\
    acc_storage_capacity t == total_capacity s.
Proof.
  intros Hwf.
  destruct (scan_tiles_sums s sunlight Hwf (_tiles s) 0 (mkTotals 0 0 0)
              ltac:(lia) ltac:(intros j c Hj; exact Hj))
    as (t & Hscan & Hp & Hu & Hc).
  exists t. unfold total_production, total_upkeep, total_capacity, enumerate.
  rewrite !sum_populated_structures.
  cbn [acc_production acc_upkeep acc_storage_capacity] in *.
  repeat split; [exact Hscan | lra | lra | lra].
Qed.

(** ** One turn, up to the guard *)

(** Name the minimum of every [Qmin] and [py_min] in sight by cases. *)
Ltac min_cases :=
  repeat match goal with
  | |- context [py_min ?a ?b] =>
      let H := fresh "Hm" in
      destruct (py_min_cases a b) as [[? H] | [? H]]; rewrite H in *; clear H
  | H : context [py_min ?a ?b] |- _ =>
      let H' := fresh "Hm" in
      destruct (py_min_cases a b) as [[? H'] | [? H']]; rewrite H' in *; clear H'
  end;
  repeat match goal with
  | |- context [Qmin ?a ?b] =>
      lazymatch goal with
      | _ : Qmin a b == _ |- _ => fail
      | _ => destruct (Q.min_spec a b) as [[? ?] | [? ?]]
      end
  end.

Lemma before_guard_spec (s : GameState) (sunlight demand : Q) :
  wf s -> 0 <= sunlight -> 0 <= demand ->
  exists r s2,
    before_guard sunlight demand s = (Ok r, s2) /\
    width s2 = width s /\ height s2 = height s /\ _tiles s2 = _tiles s /\
    let P := total_production s sunlight in
    let U := total_upkeep s in
    let M := total_capacity s in
    let E := Qmin (energy_storage s) M in
    let net := P - U - demand in
    Report.production r == P /\
    Report.consumption r == U + demand /\
    max_storage s2 == M /\
    (0 <= net ->
       Report.stored r == Qmin net (M - E) /\
       energy_storage s2 == E + Report.stored r /\
       Report.overflow r == net - Report.stored r /\
       Report.discharged r == 0 /\
       Report.unmet_demand r == 0 /\
       unmet_demand s2 = unmet_demand s) /\
    (net < 0 ->
       Report.discharged r == Qmin E (- net) /\
       energy_storage s2 == E - Report.discharged r /\
       Report.unmet_demand r == - net - Report.discharged r /\
       unmet_demand s2 == unmet_demand s + Report.unmet_demand r /\
       Report.stored r == 0 /\
       Report.overflow r == 0).
Proof.
  intros Hwf Hsun Hdem.
  destruct (scan_tiles_totals s sunlight Hwf) as (t & Hscan & Hp & Hu & Hc).
  unfold before_guard. rewrite Hscan.
  destruct (Qlt_bool sunlight 0) eqn:E1; [apply Qlt_bool_true in E1; lra |].
  destruct (Qlt_bool demand 0) eqn:E2; [apply Qlt_bool_true in E2; lra |].
  unfold settle.
  cbn [max_storage energy_storage set_max_storage set_energy_storage].
  destruct (Qle_bool 0 (acc_production t - acc_upkeep t - demand)) eqn:En;
    [apply Qle_bool_iff in En | apply Qle_bool_false in En];
    (eexists; eexists; split; [reflexivity |]);
    cbn -[Qmin py_min total_production total_upkeep total_capacity];
    (split; [reflexivity |]); (split; [reflexivity |]);
    (split; [reflexivity |]);
    (split; [exact Hp |]); (split; [lra |]); (split; [exact Hc |]).
  - split; [| intros Hneg; lra]. intros _.
    min_cases; repeat split; try reflexivity; lra.
  - split; [intros Hpos; lra |]. intros _.
    min_cases; repeat split; try reflexivity; lra.
Qed.

(** ** Placement and removal, case by case *)

Lemma place_structure_outside (s : GameState) (x y : Z) (st : Structure) :
  ~ in_bounds s x y ->
  place_structure x y st s = (Raise PlacementError_outside, s).
Proof. intros H. unfold place_structure. now rewrite index_raises. Qed.

Lemma place_structure_occupied (s : GameState) (x y : Z) (st other : Structure) :
  wf s -> in_bounds s x y -> cell_at s x y = Some other ->
  place_structure x y st s = (Raise PlacementError_occupied, s).
Proof.
  intros Hwf Hin Hcell. unfold place_structure.
  rewrite index_ok, getitem_cell, Hcell by assumption. reflexivity.
Qed.

Lemma place_structure_empty (s : GameState) (x y : Z) (st : Structure) :
  wf s -> in_bounds s x y -> cell_at s x y = None ->
  place_structure x y st s =
    (Ok tt,
     let s1 := set_tiles (<[Z.to_nat (y * width s + x) := Some st]> (_tiles s)) s in
     if truthy (storage_capacity st)
     then set_max_storage (max_storage s1 + storage_capacity st) s1
     else s1).
Proof.
  intros Hwf Hin Hcell. unfold place_structure.
  rewrite index_ok, getitem_cell, Hcell by assumption. reflexivity.
Qed.

Lemma remove_structure_outside (s : GameState) (x y : Z) :
  ~ in_bounds s x y ->
  remove_structure x y s = (Raise PlacementError_outside, s).
Proof. intros H. unfold remove_structure. now rewrite index_raises. Qed.

Lemma remove_structure_empty (s : GameState) (x y : Z) :
  wf s -> in_bounds s x y -> cell_at s x y = None ->
  remove_structure x y s = (Raise PlacementError_empty, s).
Proof.
  intros Hwf Hin Hcell. unfold remove_structure.
  rewrite index_ok, getitem_cell, Hcell by assumption. reflexivity.
Qed.

Lemma remove_structure_occupied (s : GameState) (x y : Z) (st : Structure) :
  wf s -> in_bounds s x y -> cell_at s x y = Some st ->
  remove_structure x y s =
    (Ok tt,
     let s1 := set_tiles (<[Z.to_nat (y * width s + x) := None]> (_tiles s)) s in
     if truthy (storage_capacity st)
     then
       let s2 :=
         set_max_storage (py_max 0 (max_storage s1 - storage_capacity st)) s1 in
       set_energy_storage (py_min (energy_storage s2) (max_storage s2)) s2
     else s1).
Proof.
  intros Hwf Hin Hcell. unfold remove_structure.
  rewrite index_ok, getitem_cell, Hcell by assumption. reflexivity.
Qed.

Lemma cell_at_lookup (s : GameState) (x y : Z) :
  wf s -> in_bounds s x y ->
  _tiles s !! Z.to_nat (y * width s + x) = Some (cell_at s x y).
Proof.
  intros Hwf Hin. rewrite <- getitem_cell by assumption.
  pose proof (index_in_area s x y Hin).
  now rewrite py_getitem_nonneg by lia.
Qed.

(** ** Sums under a change of one cell *)

Lemma sum_structures_insert_Some (g : Structure -> Q)
    (l : list (option Structure)) (i : nat) (st : Structure) :
  l !! i = Some None ->
  sum_structures g (<[i := Some st]> l) == sum_structures g l + g st.
Proof.
  revert i. induction l as [| c l IH]; intros [| i] Hi; try discriminate.
  - cbn in Hi. injection Hi as ->. cbn. lra.
  - cbn in Hi. specialize (IH i Hi).
    destruct c; cbn [sum_structures]; cbn; rewrite IH; lra.
Qed.

Lemma sum_structures_insert_None (g : Structure -> Q)
    (l : list (option Structure)) (i : nat) (st : Structure) :
  l !! i = Some (Some st) ->
  sum_structures g (<[i := None]> l) == sum_structures g l - g st.
Proof.
  revert i. induction l as [| c l IH]; intros [| i] Hi; try discriminate.
  - cbn in Hi. injection Hi as ->. cbn. lra.
  - cbn in Hi. specialize (IH i Hi).
    destruct c; cbn [sum_structures]; cbn; rewrite IH; lra.
Qed.

Lemma total_capacity_sum (s : GameState) :
  total_capacity s = sum_structures storage_capacity (_tiles s).
Proof. apply sum_populated_structures. Qed.

Lemma capacities_nonneg_sum (l : list (option Structure)) :
  capacities_nonneg l -> 0 <= sum_structures storage_capacity l.
Proof.
  induction 1 as [| [st |] l Hc _ IH]; cbn; [lra | | exact IH].
  unfold capacity_nonneg in Hc. lra.
Qed.

Lemma capacities_nonneg_insert (l : list (option Structure)) (i : nat)
    (c : option Structure) :
  capacities_nonneg l ->
  match c with Some st => capacity_nonneg st | None => True end ->
  capacities_nonneg (<[i := c]> l).
Proof.
  intros Hl Hc. unfold capacities_nonneg. now apply Forall_insert.
Qed.

(** ** What no call touches *)

Lemma settle_frame (net : Q) (s : GameState) :
  let s' := snd (settle net s) in
  width s' = width s /\ height s' = height s /\ _tiles s' = _tiles s /\
  max_storage s' = max_storage s.
Proof. unfold settle. destruct (Qle_bool 0 net); cbn; auto. Qed.

Lemma before_guard_frame (sunlight demand : Q) (s : GameState) :
  let s' := snd (before_guard sunlight demand s) in
  width s' = width s /\ height s' = height s /\ _tiles s' = _tiles s.
Proof.
  unfold before_guard.
  destruct (Qlt_bool sunlight 0); [cbn; auto |].
  destruct (Qlt_bool demand 0); [cbn; auto |].
  destruct (scan_tiles s sunlight (enumerate (_tiles s)) (mkTotals 0 0 0))
    as [t | e]; [| cbn; auto].
  match goal with
  | |- context [settle ?n ?s0] =>
      pose proof (settle_frame n s0) as Hf; destruct (settle n s0) as [fl s2]
  end.
  cbn in *. tauto.
Qed.

Lemma degenerate_guard_frame (s : GameState) :
  let s' := degenerate_guard s in
  width s' = width s /\ height s' = height s /\ _tiles s' = _tiles s /\
  max_storage s' = max_storage s /\ unmet_demand s' = unmet_demand s.
Proof. unfold degenerate_guard. destruct (degenerate s); cbn; auto. Qed.

Lemma advance_turn_frame (sunlight demand : Q) (s : GameState) :
  let s' := snd (advance_turn sunlight demand s) in
  width s' = width s /\ height s' = height s /\ _tiles s' = _tiles s.
Proof.
  rewrite advance_turn_guard.
  pose proof (before_guard_frame sunlight demand s) as Hf.
  destruct (before_guard sunlight demand s) as [[r | e] s2]; cbn in *; [| exact Hf].
  pose proof (degenerate_guard_frame s2) as Hg. cbn in Hg.
  destruct Hf as (Hw & Hh & Ht), Hg as (Hw' & Hh' & Ht' & _).
  rewrite Hw', Hh', Ht'. auto.
Qed.

(** ** The board keeps its shape *)

Lemma wf_place_structure (s : GameState) (x y : Z) (st : Structure) :
  wf s -> wf (snd (place_structure x y st s)).
Proof.
  unfold place_structure, wf. intros Hwf.
  destruct (_index s x y) as [i | e]; [| exact Hwf].
  destruct (py_getitem (_tiles s) i) as [[other |] |]; try exact Hwf.
  destruct (truthy (storage_capacity st)); cbn; now rewrite length_insert.
Qed.

Lemma wf_remove_structure (s : GameState) (x y : Z) :
  wf s -> wf (snd (remove_structure x y s)).
Proof.
  unfold remove_structure, wf. intros Hwf.
  destruct (_index s x y) as [i | e]; [| exact Hwf].
  destruct (py_getitem (_tiles s) i) as [[other |] |]; try exact Hwf.
  destruct (truthy (storage_capacity other)); cbn; now rewrite length_insert.
Qed.

Lemma wf_advance_turn (s : GameState) (sunlight demand : Q) :
  wf s -> wf (snd (advance_turn sunlight demand s)).
Proof.
  unfold wf. intros Hwf.
  destruct (advance_turn_frame sunlight demand s) as (-> & -> & ->).
  exact Hwf.
Qed.

Lemma wf_after (c : call) (s : GameState) : wf s -> wf (after c s).
Proof.
  destruct c; cbn [after].
  - apply wf_place_structure.
  - apply wf_remove_structure.
  - auto.
  - apply wf_advance_turn.
Qed.

Lemma wf_init (w h : Z) (s : GameState) : GameState_init w h = Ok s -> wf s.
Proof.
  unfold GameState_init.
  destruct ((w <=? 0) || (h <=? 0))%Z eqn:E; [discriminate |].
  intros [= <-]. apply orb_false_elim in E as [Ew Eh].
  unfold wf. cbn. rewrite length_replicate. repeat split; lia.
Qed.

Lemma reachable_with_wf (P : Structure -> Prop) (s : GameState) :
  reachable_with P s -> wf s.
Proof.
  induction 1 as [w h s Hinit | c s _ IH _].
  - eapply wf_init; eassumption.
  - now apply wf_after.
Qed.

(** ** The storage invariants *)

Lemma advance_turn_invalid (s : GameState) (sunlight demand : Q) :
  sunlight < 0 \/ demand < 0 ->
  exists e, advance_turn sunlight demand s = (Raise e, s).
Proof.
  intros Hbad. unfold advance_turn, before_guard.
  destruct (Qlt_bool sunlight 0) eqn:E1; [eexists; reflexivity |].
  destruct (Qlt_bool demand 0) eqn:E2; [eexists; reflexivity |].
  apply Qlt_bool_false in E1, E2. lra.
Qed.

Lemma advance_turn_before_guard (s : GameState) (sunlight demand : Q)
    (r : EnergyReport) (s2 : GameState) :
  before_guard sunlight demand s = (Ok r, s2) ->
  advance_turn sunlight demand s = (Ok r, degenerate_guard s2).
Proof. intros H. rewrite advance_turn_guard. now rewrite H. Qed.

Lemma degenerate_false (s : GameState) :
  0 <= energy_storage s -> energy_storage s <= max_storage s ->
  degenerate s = false.
Proof.
  intros H0 Hmax. unfold degenerate. qcases; cbn; try reflexivity. lra.
Qed.

Lemma storage_consistent_init (w h : Z) (s : GameState) :
  GameState_init w h = Ok s -> storage_consistent s.
Proof.
  intros Hinit. pose proof (wf_init w h s Hinit) as Hwf.
  unfold GameState_init in Hinit.
  destruct ((w <=? 0) || (h <=? 0))%Z; [discriminate |].
  injection Hinit as <-. split; [exact Hwf |].
  rewrite total_capacity_sum. cbn.
  generalize (Z.to_nat (w * h)). intros n.
  assert (Hsum : sum_structures storage_capacity (replicate n None) = 0)
    by (induction n; cbn; auto).
  rewrite Hsum. repeat split; try lra.
  apply Forall_replicate. exact I.
Qed.

Lemma storage_consistent_place (s : GameState) (x y : Z) (st : Structure) :
  capacity_nonneg st -> storage_consistent s ->
  storage_consistent (snd (place_structure x y st s)).
Proof.
  intros Hst Hs. pose proof Hs as (Hwf & Hcaps & H0 & Hmax & Hsum).
  destruct (in_bounds_dec s x y) as [Hin | Hout];
    [| now rewrite place_structure_outside].
  destruct (cell_at s x y) as [other |] eqn:Hcell;
    [now rewrite (place_structure_occupied s x y st other) |].
  pose proof (wf_place_structure s x y st Hwf) as Hwf'.
  rewrite place_structure_empty in * by assumption.
  split; [exact Hwf' |]. clear Hwf'.
  pose proof (cell_at_lookup s x y Hwf Hin) as Hlook. rewrite Hcell in Hlook.
  pose proof (sum_structures_insert_Some storage_capacity _ _ st Hlook) as Hins.
  rewrite total_capacity_sum in *. unfold capacity_nonneg in Hst.
  cbn zeta. destruct (truthy (storage_capacity st)) eqn:Ht; cbn;
    (split; [now apply capacities_nonneg_insert |]);
    repeat split; try lra.
  apply truthy_false in Ht. lra.
Qed.

Lemma storage_consistent_remove (s : GameState) (x y : Z) :
  storage_consistent s -> storage_consistent (snd (remove_structure x y s)).
Proof.
  intros Hs. pose proof Hs as (Hwf & Hcaps & H0 & Hmax & Hsum).
  destruct (in_bounds_dec s x y) as [Hin | Hout];
    [| now rewrite remove_structure_outside].
  destruct (cell_at s x y) as [st |] eqn:Hcell;
    [| now rewrite remove_structure_empty].
  pose proof (wf_remove_structure s x y Hwf) as Hwf'.
  rewrite (remove_structure_occupied s x y st) in * by assumption.
  split; [exact Hwf' |]. clear Hwf'.
  pose proof (cell_at_lookup s x y Hwf Hin) as Hlook. rewrite Hcell in Hlook.
  pose proof (sum_structures_insert_None storage_capacity _ _ st Hlook) as Hins.
  pose proof (capacities_nonneg_sum _
                (capacities_nonneg_insert _ (Z.to_nat (y * width s + x)) None
                   Hcaps I)) as Hpos.
  rewrite total_capacity_sum in *.
  cbn zeta. destruct (truthy (storage_capacity st)) eqn:Ht; cbn;
    (split; [now apply capacities_nonneg_insert |]).
  - destruct (py_max_cases 0 (max_storage s - storage_capacity st))
      as [[? ->] | [? ->]]; min_cases; repeat split; lra.
  - apply truthy_false in Ht. repeat split; lra.
Qed.

Lemma storage_consistent_advance (s : GameState) (sunlight demand : Q) :
  storage_consistent s ->
  storage_consistent (snd (advance_turn sunlight demand s)).
Proof.
  intros Hs. pose proof Hs as (Hwf & Hcaps & H0 & Hmax & Hsum).
  destruct (Qlt_le_dec sunlight 0) as [Hsun | Hsun];
    [destruct (advance_turn_invalid s sunlight demand (or_introl Hsun))
       as [e ->]; exact Hs |].
  destruct (Qlt_le_dec demand 0) as [Hdem | Hdem];
    [destruct (advance_turn_invalid s sunlight demand (or_intror Hdem))
       as [e ->]; exact Hs |].
  pose proof (wf_advance_turn s sunlight demand Hwf) as Hwf'.
  destruct (before_guard_spec s sunlight demand Hwf Hsun Hdem)
    as (r & s2 & Hres & Hw & Hh & Ht & HP & HU & HM & Hpos & Hneg).
  rewrite (advance_turn_before_guard _ _ _ _ _ Hres) in *. cbn [snd] in *.
  split; [exact Hwf' |].
  pose proof (capacities_nonneg_sum _ Hcaps) as Hcap0.
  assert (Hbounds : 0 <= energy_storage s2 /\ energy_storage s2 <= max_storage s2).
  { rewrite <- total_capacity_sum in Hcap0.
    destruct (Qlt_le_dec (total_production s sunlight - total_upkeep s - demand) 0)
      as [Hn | Hn].
    - destruct (Hneg Hn) as (Hd & He & _). revert Hd He. min_cases; lra.
    - destruct (Hpos Hn) as (Hst & He & _). revert Hst He. min_cases; lra. }
  assert (Htot : total_capacity (degenerate_guard s2) = total_capacity s).
  { rewrite !total_capacity_sum.
    destruct (degenerate_guard_frame s2) as (_ & _ & Ht' & _).
    now rewrite Ht', Ht. }
  rewrite Htot.
  unfold degenerate_guard.
  rewrite degenerate_false by tauto.
  rewrite Ht. tauto.
Qed.

Lemma storage_consistent_after (c : call) (s : GameState) :
  places_only capacity_nonneg c ->
  storage_consistent s -> storage_consistent (after c s).
Proof.
  destruct c; cbn [after places_only]; intros Hc Hs.
  - now apply storage_consistent_place.
  - now apply storage_consistent_remove.
  - exact Hs.
  - now apply storage_consistent_advance.
Qed.

Lemma reachable_storage_consistent (s : GameState) :
  reachable_with capacity_nonneg s -> storage_consistent s.
Proof.
  induction 1 as [w h s Hinit | c s _ IH Hc].
  - eapply storage_consistent_init; eassumption.
  - now apply storage_consistent_after.
Qed.

(** ** The cumulative deficit *)

Lemma before_guard_unmet (s : GameState) (sunlight demand : Q) :
  match before_guard sunlight demand s with
  | (Ok r, s') =>
      0 <= Report.unmet_demand r /\
      unmet_demand s' == unmet_demand s + Report.unmet_demand r
  | (Raise _, s') => s' = s
  end.
Proof.
  unfold before_guard.
  destruct (Qlt_bool sunlight 0); [reflexivity |].
  destruct (Qlt_bool demand 0); [reflexivity |].
  destruct (scan_tiles s sunlight (enumerate (_tiles s)) (mkTotals 0 0 0))
    as [t | e]; [| reflexivity].
  unfold settle.
  destruct (Qle_bool 0 (acc_production t - acc_upkeep t - demand)) eqn:En;
    cbn -[py_min]; [split; lra |].
  apply Qle_bool_false in En. min_cases; split; lra.
Qed.

Lemma advance_turn_unmet (s : GameState) (sunlight demand : Q) :
  match advance_turn sunlight demand s with
  | (Ok r, s') =>
      0 <= Report.unmet_demand r /\
      unmet_demand s' == unmet_demand s + Report.unmet_demand r
  | (Raise _, s') => s' = s
  end.
Proof.
  rewrite advance_turn_guard.
  pose proof (before_guard_unmet s sunlight demand) as H.
  destruct (before_guard sunlight demand s) as [[r | e] s2]; [| exact H].
  destruct (degenerate_guard_frame s2) as (_ & _ & _ & _ & ->). exact H.
Qed.

Lemma place_structure_unmet (s : GameState) (x y : Z) (st : Structure) :
  unmet_demand (snd (place_structure x y st s)) = unmet_demand s.
Proof.
  unfold place_structure.
  destruct (_index s x y) as [i | e]; [| reflexivity].
  destruct (py_getitem (_tiles s) i) as [[other |] |]; try reflexivity.
  destruct (truthy (storage_capacity st)); reflexivity.
Qed.

Lemma remove_structure_unmet (s : GameState) (x y : Z) :
  unmet_demand (snd (remove_structure x y s)) = unmet_demand s.
Proof.
  unfold remove_structure.
  destruct (_index s x y) as [i | e]; [| reflexivity].
  destruct (py_getitem (_tiles s) i) as [[other |] |]; try reflexivity.
  destruct (truthy (storage_capacity other)); reflexivity.
Qed.

Lemma after_unmet (c : call) (s : GameState) :
  unmet_demand s <= unmet_demand (after c s).
Proof.
  destruct c as [x y st | x y | | sunlight demand]; cbn [after].
  - rewrite place_structure_unmet. lra.
  - rewrite remove_structure_unmet. lra.
  - cbn. lra.
  - pose proof (advance_turn_unmet s sunlight demand) as H.
    destruct (advance_turn sunlight demand s) as [[r | e] s']; cbn [snd].
    + lra.
    + subst s'. lra.
Qed.

(** * Properties of the engine *)

(** C2. [Structure.production(sunlight, n)] is
    max(0, (base_production + adjacency_bonus * n) * sunlight) for every
    structure, every sunlight of either sign and every neighbour count,
    and is never negative.  It is a total function of the structure and
    the two numbers: it has no failing case and takes no engine state. *)
Theorem production_is_clamped_product :
  forall (st : Structure) (sunlight : Q) (n : Z),
    production st sunlight n ==
      Qmax 0 ((base_production st + adjacency_bonus st * inject_Z n) * sunlight)
    /\ 0 <= production st sunlight n.
Proof.
  intros st sunlight n. split.
  - unfold production. apply py_max_Qmax.
  - apply production_nonneg.
Qed.

(** C10. Whether it returns or raises, [advance_turn] leaves the width,
    the height and the tiles as they were: only [energy_storage],
    [max_storage] and [unmet_demand] can differ afterwards. *)
Theorem advance_turn_keeps_grid :
  forall (s : GameState) (sunlight demand : Q),
    width (snd (advance_turn sunlight demand s)) = width s /\
    height (snd (advance_turn sunlight demand s)) = height s /\
    _tiles (snd (advance_turn sunlight demand s)) = _tiles s.
Proof. intros s sunlight demand. apply advance_turn_frame. Qed.

(** C4. The cumulative [unmet_demand] never decreases: over any sequence
    of calls it ends no lower than it started; a turn that returns adds
    its report's non-negative deficit; a turn that raises, a placement, a
    removal and a snapshot leave it as it was. *)
Theorem unmet_demand_never_decreases :
  (forall (cs : list call) (s : GameState),
      unmet_demand s <= unmet_demand (run cs s)) /\
  (forall (s : GameState) (sunlight demand : Q),
      match advance_turn sunlight demand s with
      | (Ok r, s') =>
          0 <= Report.unmet_demand r /\
          unmet_demand s' == unmet_demand s + Report.unmet_demand r
      | (Raise _, s') => unmet_demand s' = unmet_demand s
      end) /\
  (forall (s : GameState) (x y : Z) (st : Structure),
      unmet_demand (snd (place_structure x y st s)) = unmet_demand s) /\
  (forall (s : GameState) (x y : Z),
      unmet_demand (snd (remove_structure x y s)) = unmet_demand s) /\
  (forall s : GameState, unmet_demand (snd (structures s)) = unmet_demand s).
Proof.
  repeat split.
  - intros cs. unfold run. induction cs as [| c cs IH]; intros s; cbn.
    + lra.
    + pose proof (after_unmet c s). pose proof (IH (after c s)). lra.
  - intros s sunlight demand.
    pose proof (advance_turn_unmet s sunlight demand) as H.
    destruct (advance_turn sunlight demand s) as [[r | e] s'];
      [exact H | now subst].
  - intros. apply place_structure_unmet.
  - intros. apply remove_structure_unmet.
Qed.

Lemma fails_iff_error_condition (c : call) (s : GameState) :
  wf s -> (fails c s <-> error_condition c s).
Proof.
  intros Hwf. destruct c as [x y st | x y | | sunlight demand];
    cbn [fails error_condition].
  - destruct (in_bounds_dec s x y) as [Hin | Hout].
    + destruct (cell_at s x y) as [other |] eqn:Hcell.
      * rewrite (place_structure_occupied s x y st other) by assumption.
        cbn. split; [eauto | trivial].
      * rewrite place_structure_empty by assumption. cbn.
        split; [tauto |]. intros [Hout | [other Hother]];
          [contradiction | discriminate].
    + rewrite place_structure_outside by assumption. cbn. tauto.
  - destruct (in_bounds_dec s x y) as [Hin | Hout].
    + destruct (cell_at s x y) as [st |] eqn:Hcell.
      * rewrite (remove_structure_occupied s x y st) by assumption. cbn.
        split; [tauto |]. intros [Hout | Hnone];
          [contradiction | discriminate].
      * rewrite remove_structure_empty by assumption. cbn. tauto.
    + rewrite remove_structure_outside by assumption. cbn. tauto.
  - cbn. tauto.
  - destruct (Qlt_le_dec sunlight 0) as [Hsun | Hsun];
      [destruct (advance_turn_invalid s sunlight demand (or_introl Hsun))
         as [e ->]; cbn; tauto |].
    destruct (Qlt_le_dec demand 0) as [Hdem | Hdem];
      [destruct (advance_turn_invalid s sunlight demand (or_intror Hdem))
         as [e ->]; cbn; tauto |].
    destruct (before_guard_spec s sunlight demand Hwf Hsun Hdem)
      as (r & s2 & Hres & _).
    rewrite (advance_turn_before_guard _ _ _ _ _ Hres). cbn.
    split; [tauto | lra].
Qed.

Lemma fails_unchanged (c : call) (s : GameState) :
  fails c s -> after c s = s.
Proof.
  destruct c as [x y st | x y | | sunlight demand]; cbn [fails after].
  - unfold place_structure.
    destruct (_index s x y) as [i | e]; [| reflexivity].
    destruct (py_getitem (_tiles s) i) as [[other |] |]; try reflexivity.
    cbn. contradiction.
  - unfold remove_structure.
    destruct (_index s x y) as [i | e]; [| reflexivity].
    destruct (py_getitem (_tiles s) i) as [[other |] |]; try reflexivity.
    cbn. contradiction.
  - reflexivity.
  - pose proof (advance_turn_unmet s sunlight demand) as H.
    destruct (advance_turn sunlight demand s) as [[r | e] s']; cbn.
    + contradiction.
    + intros _. exact H.
Qed.

(** C6. On every engine a caller can hold, a call raises exactly under
    its error condition: a placement when the coordinate is off the
    board or the cell is occupied, a removal when the coordinate is off
    the board or the cell is empty, a turn when sunlight or demand is
    negative; and a call that raises leaves the whole state as it was.
    The constructor raises exactly when a dimension is not positive. *)
Theorem calls_fail_exactly_when_specified :
  (forall s : GameState, reachable s ->
     forall c : call,
       (fails c s <-> error_condition c s) /\
       (fails c s -> after c s = s)) /\
  (forall w h : Z, raises (GameState_init w h) <-> (w <= 0 \/ h <= 0)%Z).
Proof.
  split.
  - intros s Hs c. split.
    + apply fails_iff_error_condition. eapply reachable_with_wf, Hs.
    + apply fails_unchanged.
  - intros w h. unfold GameState_init.
    destruct ((w <=? 0) || (h <=? 0))%Z eqn:E; cbn.
    + apply orb_true_iff in E. split; [lia | trivial].
    + apply orb_false_iff in E. split; [contradiction | lia].
Qed.

Lemma place_structure_storage (s : GameState) (x y : Z) (st : Structure) :
  capacity_nonneg st ->
  energy_storage (snd (place_structure x y st s)) = energy_storage s /\
  max_storage s <= max_storage (snd (place_structure x y st s)).
Proof.
  unfold capacity_nonneg, place_structure. intros Hst.
  destruct (_index s x y) as [i | e]; [| cbn; split; [reflexivity | lra]].
  destruct (py_getitem (_tiles s) i) as [[other |] |];
    try (cbn; split; [reflexivity | lra]).
  destruct (truthy (storage_capacity st)); cbn; split; try reflexivity; lra.
Qed.

(** C3. When every structure placed has a storage capacity of at least
    zero, [0 <= energy_storage <= max_storage] holds on the engine the
    constructor returns and after every later call, whether it returned
    or raised; and a placement leaves [energy_storage] alone and never
    lowers [max_storage]. *)
Theorem energy_storage_within_capacity :
  (forall s : GameState, reachable_with capacity_nonneg s ->
     0 <= energy_storage s /\ energy_storage s <= max_storage s) /\
  (forall (s : GameState) (x y : Z) (st : Structure),
     capacity_nonneg st ->
     energy_storage (snd (place_structure x y st s)) = energy_storage s /\
     max_storage s <= max_storage (snd (place_structure x y st s))).
Proof.
  split.
  - intros s Hs.
    destruct (reachable_storage_consistent s Hs) as (_ & _ & H0 & Hmax & _).
    split; assumption.
  - intros. now apply place_structure_storage.
Qed.

Lemma removed_capacity_covered (s : GameState) (x y : Z) (st : Structure) :
  storage_consistent s -> in_bounds s x y -> cell_at s x y = Some st ->
  0 <= max_storage s - storage_capacity st.
Proof.
  intros (Hwf & Hcaps & _ & _ & Hsum) Hin Hcell.
  pose proof (cell_at_lookup s x y Hwf Hin) as Hlook. rewrite Hcell in Hlook.
  pose proof (sum_structures_insert_None storage_capacity _ _ st Hlook) as Hins.
  pose proof (capacities_nonneg_sum _
                (capacities_nonneg_insert _ (Z.to_nat (y * width s + x)) None
                   Hcaps I)) as Hpos.
  rewrite total_capacity_sum in Hsum. lra.
Qed.

Lemma advance_turn_max_storage (s : GameState) (sunlight demand : Q) :
  storage_consistent s ->
  max_storage (snd (advance_turn sunlight demand s)) == max_storage s.
Proof.
  intros Hs.
  destruct (storage_consistent_advance s sunlight demand Hs)
    as (_ & _ & _ & _ & Hsum').
  destruct Hs as (_ & _ & _ & _ & Hsum).
  rewrite Hsum', Hsum, !total_capacity_sum.
  destruct (advance_turn_frame sunlight demand s) as (_ & _ & ->).
  reflexivity.
Qed.

(** C8. When every structure placed has a storage capacity of at least
    zero, [max_storage] is the sum of the capacities of the structures on
    the board, on the engine the constructor returns and after every
    later call.  So the floor at zero in [remove_structure] returns its
    second argument for whichever structure is removed, and the total
    that [advance_turn] recomputes is the value [max_storage] already
    had. *)
Theorem max_storage_is_total_capacity :
  forall s : GameState, reachable_with capacity_nonneg s ->
    max_storage s == total_capacity s /\
    (forall (x y : Z) (st : Structure),
        in_bounds s x y -> cell_at s x y = Some st ->
        py_max 0 (max_storage s - storage_capacity st)
          == max_storage s - storage_capacity st) /\
    (forall sunlight demand : Q,
        max_storage (snd (advance_turn sunlight demand s)) == max_storage s).
Proof.
  intros s Hs. pose proof (reachable_storage_consistent s Hs) as Hcons.
  split; [apply Hcons |]. split.
  - intros x y st Hin Hcell.
    pose proof (removed_capacity_covered s x y st Hcons Hin Hcell).
    destruct (py_max_cases 0 (max_storage s - storage_capacity st))
      as [[? ->] | [? ->]]; lra.
  - intros. now apply advance_turn_max_storage.
Qed.

(** ** Engines built from a list of calls *)

Lemma reachable_run (P : Structure -> Prop) (cs : list call) (s : GameState) :
  reachable_with P s -> Forall (places_only P) cs ->
  reachable_with P (run cs s).
Proof.
  intros Hs Hcs. revert s Hs. unfold run.
  induction Hcs as [| c cs Hc _ IH]; intros s Hs; cbn; [exact Hs |].
  apply IH. now apply reach_call.
Qed.

Lemma reachable_board_2x1 (P : Structure -> Prop) : reachable_with P board_2x1.
Proof. now apply (reach_init P 2 1). Qed.

(** ** Place, then remove *)

Lemma cell_at_insert (s s' : GameState) (x y : Z) (c : option Structure) :
  wf s -> in_bounds s x y ->
  width s' = width s -> height s' = height s ->
  _tiles s' = <[Z.to_nat (y * width s + x) := c]> (_tiles s) ->
  cell_at s' x y = c.
Proof.
  intros Hwf Hin Hw Hh Ht. unfold cell_at. rewrite Hw, Hh, Ht.
  pose proof (index_in_area s x y Hin) as Hidx.
  pose proof (wf_area s Hwf) as Hlen.
  destruct Hin as [Hx Hy].
  replace ((0 <=? x) && (x <? width s) && (0 <=? y) && (y <? height s))%Z
    with true by (symmetry; repeat (apply andb_true_intro; split); lia).
  rewrite list_lookup_insert_eq by lia. reflexivity.
Qed.

Lemma place_structure_empty_fields (s : GameState) (x y : Z) (st : Structure) :
  wf s -> in_bounds s x y -> cell_at s x y = None ->
  let placed := place_structure x y st s in
  fst placed = Ok tt /\
  width (snd placed) = width s /\ height (snd placed) = height s /\
  _tiles (snd placed) = <[Z.to_nat (y * width s + x) := Some st]> (_tiles s) /\
  energy_storage (snd placed) = energy_storage s /\
  max_storage (snd placed) == max_storage s + storage_capacity st.
Proof.
  intros Hwf Hin Hcell. rewrite place_structure_empty by assumption.
  cbn zeta. destruct (truthy (storage_capacity st)) eqn:Ht; cbn;
    repeat split; try reflexivity.
  apply truthy_false in Ht. lra.
Qed.

Lemma remove_structure_occupied_fields (s : GameState) (x y : Z)
    (st : Structure) :
  wf s -> in_bounds s x y -> cell_at s x y = Some st ->
  let removed := remove_structure x y s in
  fst removed = Ok tt /\
  width (snd removed) = width s /\ height (snd removed) = height s /\
  _tiles (snd removed) = <[Z.to_nat (y * width s + x) := None]> (_tiles s) /\
  (0 <= max_storage s - storage_capacity st ->
   max_storage (snd removed) == max_storage s - storage_capacity st).
Proof.
  intros Hwf Hin Hcell.
  rewrite (remove_structure_occupied s x y st) by assumption.
  cbn zeta. destruct (truthy (storage_capacity st)) eqn:Ht; cbn;
    repeat split; try reflexivity; intros Hpos.
  - destruct (py_max_cases 0 (max_storage s - storage_capacity st))
      as [[? ->] | [? ->]]; lra.
  - apply truthy_false in Ht. lra.
Qed.

Lemma roundtrip_from_nonneg_ceiling (s : GameState) (x y : Z) (st : Structure) :
  wf s -> 0 <= max_storage s -> in_bounds s x y -> cell_at s x y = None ->
  roundtrip_restores s x y st.
Proof.
  intros Hwf Hmax Hin Hcell. unfold roundtrip_restores. cbn zeta.
  destruct (place_structure_empty_fields s x y st Hwf Hin Hcell)
    as (Hok1 & Hw1 & Hh1 & Ht1 & _ & Hm1).
  pose proof (wf_place_structure s x y st Hwf) as Hwf1.
  set (s1 := snd (place_structure x y st s)) in *.
  assert (Hin1 : in_bounds s1 x y) by (unfold in_bounds; now rewrite Hw1, Hh1).
  assert (Hcell1 : cell_at s1 x y = Some st)
    by (now apply (cell_at_insert s s1)).
  destruct (remove_structure_occupied_fields s1 x y st Hwf1 Hin1 Hcell1)
    as (Hok2 & Hw2 & Hh2 & Ht2 & Hm2).
  repeat split; try assumption.
  - rewrite Hm2; lra.
  - now apply (cell_at_insert s1).
Qed.

(** C5, as written, fails: [leaky_board] is an engine a caller can hold,
    [(1, 0)] is on its board and empty, yet placing a battery bank there
    and removing it leaves [max_storage] at 0 where it was -5: the floor
    at zero in [remove_structure] cuts the subtraction short. *)
Lemma roundtrip_fails_below_zero :
  reachable leaky_board /\ in_bounds leaky_board 1 0 /\
  cell_at leaky_board 1 0 = None /\
  ~ roundtrip_restores leaky_board 1 0 BATTERY_BANK.
Proof.
  split; [| split; [| split]].
  - apply reachable_run; [apply reachable_board_2x1 |].
    repeat constructor.
  - unfold in_bounds. repeat split; vm_compute; congruence.
  - reflexivity.
  - unfold roundtrip_restores. intros (_ & _ & Hmax & _).
    vm_compute in Hmax. discriminate.
Qed.

(** C5, amended. On an engine on which only structures with a storage
    capacity of at least zero have been placed, for every coordinate on
    the board whose cell is empty and every structure, placing the
    structure and removing it at once returns both times, restores
    [max_storage] to its value and leaves the cell empty. *)
Theorem place_then_remove_restores :
  forall (s : GameState) (x y : Z) (st : Structure),
    reachable_with capacity_nonneg s ->
    in_bounds s x y -> cell_at s x y = None ->
    roundtrip_restores s x y st.
Proof.
  intros s x y st Hs Hin Hcell.
  destruct (reachable_storage_consistent s Hs) as (Hwf & _ & H0 & Hmax & _).
  apply roundtrip_from_nonneg_ceiling; try assumption. lra.
Qed.

Lemma place_then_remove_restores_witness :
  reachable_with capacity_nonneg board_2x1 /\
  in_bounds board_2x1 1 0 /\ cell_at board_2x1 1 0 = None /\
  roundtrip_restores board_2x1 1 0 BATTERY_BANK.
Proof.
  assert (Hr : reachable_with capacity_nonneg board_2x1)
    by apply reachable_board_2x1.
  assert (Hin : in_bounds board_2x1 1 0) by (unfold in_bounds; repeat split; vm_compute; congruence).
  assert (Hc : cell_at board_2x1 1 0 = None) by reflexivity.
  split; [exact Hr |]. split; [exact Hin |]. split; [exact Hc |].
  exact (place_then_remove_restores board_2x1 1 0 BATTERY_BANK Hr Hin Hc).
Defined.

(** ** The guard *)

Lemma before_guard_invalid (s : GameState) (sunlight demand : Q) :
  sunlight < 0 \/ demand < 0 ->
  exists e, before_guard sunlight demand s = (Raise e, s).
Proof.
  intros Hbad. unfold before_guard.
  destruct (Qlt_bool sunlight 0) eqn:E1; [eexists; reflexivity |].
  destruct (Qlt_bool demand 0) eqn:E2; [eexists; reflexivity |].
  apply Qlt_bool_false in E1, E2. lra.
Qed.

Lemma before_guard_within_capacity (s : GameState) (sunlight demand : Q)
    (r : EnergyReport) (s2 : GameState) :
  wf s -> 0 <= total_capacity s -> 0 <= energy_storage s ->
  0 <= sunlight -> 0 <= demand ->
  before_guard sunlight demand s = (Ok r, s2) ->
  0 <= energy_storage s2 /\ energy_storage s2 <= max_storage s2.
Proof.
  intros Hwf Hcap H0 Hsun Hdem Hres.
  destruct (before_guard_spec s sunlight demand Hwf Hsun Hdem)
    as (r' & s2' & Hres' & _ & _ & _ & _ & _ & HM & Hpos & Hneg).
  rewrite Hres in Hres'. injection Hres' as <- <-.
  destruct (Qlt_le_dec (total_production s sunlight - total_upkeep s - demand) 0)
    as [Hn | Hn].
  - destruct (Hneg Hn) as (Hd & He & _). revert Hd He. min_cases; lra.
  - destruct (Hpos Hn) as (Hst & He & _). revert Hst He. min_cases; lra.
Qed.

Lemma guard_idle (s : GameState) (sunlight demand : Q) :
  wf s -> 0 <= total_capacity s -> 0 <= energy_storage s ->
  guard_fires sunlight demand s = false /\
  advance_turn sunlight demand s = before_guard sunlight demand s.
Proof.
  intros Hwf Hcap H0. rewrite advance_turn_guard. unfold guard_fires.
  destruct (Qlt_le_dec sunlight 0) as [Hsun | Hsun];
    [destruct (before_guard_invalid s sunlight demand (or_introl Hsun)) as [e ->];
     split; reflexivity |].
  destruct (Qlt_le_dec demand 0) as [Hdem | Hdem];
    [destruct (before_guard_invalid s sunlight demand (or_intror Hdem)) as [e ->];
     split; reflexivity |].
  destruct (before_guard sunlight demand s) as [[r | e] s2] eqn:Hres;
    [| split; reflexivity].
  destruct (before_guard_within_capacity s sunlight demand r s2
              Hwf Hcap H0 Hsun Hdem Hres) as [He0 Hemax].
  pose proof (degenerate_false s2 He0 Hemax) as Hdeg.
  unfold degenerate_guard. rewrite Hdeg. split; reflexivity.
Qed.

(** C9, as written, fails: [drained_board] is an engine a caller can hold
    (a leaky cell placed, one turn, the cell removed); it is empty, its
    [energy_storage] is -5.  A turn with no sunlight and no demand
    reaches the guard with [max_storage = 0] and [energy_storage = -5],
    and the guard resets the energy to 0. *)
Lemma guard_fires_on_drained_board :
  reachable drained_board /\
  guard_fires 0 0 drained_board = true /\
  energy_storage (snd (before_guard 0 0 drained_board)) == -5 /\
  energy_storage (snd (advance_turn 0 0 drained_board)) == 0.
Proof.
  split; [| split; [| split]].
  - apply reachable_run; [apply reachable_board_2x1 |].
    repeat constructor.
  - reflexivity.
  - reflexivity.
  - reflexivity.
Qed.

(** C9, amended. On an engine on which only structures with a storage
    capacity of at least zero have been placed, no turn reaches the guard
    with its condition true: [advance_turn] returns what the steps before
    the guard computed, state included. *)
Theorem guard_never_fires :
  forall s : GameState, reachable_with capacity_nonneg s ->
    forall sunlight demand : Q,
      guard_fires sunlight demand s = false /\
      advance_turn sunlight demand s = before_guard sunlight demand s.
Proof.
  intros s Hs sunlight demand.
  destruct (reachable_storage_consistent s Hs) as (Hwf & Hcaps & H0 & _ & _).
  apply guard_idle; try assumption.
  rewrite total_capacity_sum. now apply capacities_nonneg_sum.
Qed.

Lemma guard_never_fires_witness :
  reachable_with capacity_nonneg board_2x1 /\
  guard_fires 1 0 board_2x1 = false /\
  advance_turn 1 0 board_2x1 = before_guard 1 0 board_2x1.
Proof.
  assert (Hr : reachable_with capacity_nonneg board_2x1)
    by apply reachable_board_2x1.
  split; [exact Hr |].
  exact (guard_never_fires board_2x1 Hr 1 0).
Defined.

(** ** The accounting of a turn *)

Lemma turn_accounting_consistent (s : GameState) (sunlight demand : Q) :
  storage_consistent s -> 0 <= sunlight -> 0 <= demand ->
  turn_accounting s sunlight demand.
Proof.
  intros (Hwf & Hcaps & H0 & Hmax & Hsum) Hsun Hdem.
  assert (Hcap : 0 <= total_capacity s)
    by (rewrite total_capacity_sum; now apply capacities_nonneg_sum).
  destruct (before_guard_spec s sunlight demand Hwf Hsun Hdem)
    as (r & s2 & Hres & _ & _ & _ & HP & HU & HM & Hpos & Hneg).
  destruct (guard_idle s sunlight demand Hwf Hcap H0) as [_ Hadv].
  exists r, s2. split; [now rewrite Hadv |].
  cbn zeta. split; [exact HP |]. split; [exact HU |]. split.
  - intros Hn. destruct (Hpos Hn) as (Hst & He & Hov & Hdis & Hun & _).
    repeat split; try assumption.
    + revert Hst. min_cases; lra.
    + revert He. min_cases; lra.
  - intros Hn. destruct (Hneg Hn) as (Hdis & He & Hun & Hcum & Hst & Hov).
    repeat split; try assumption.
    + revert Hdis. min_cases; lra.
    + revert He. min_cases; lra.
Qed.



(** ** Two producers side by side *)

Lemma index_injective (s : GameState) (x y x' y' : Z) :
  in_bounds s x y -> in_bounds s x' y' ->
  (y * width s + x = y' * width s + x')%Z -> x = x' /\ y = y'.
Proof.
  unfold in_bounds. intros [Hx Hy] [Hx' Hy'] Heq.
  assert (y = y') by nia. subst y'. split; [lia | reflexivity].
Qed.

Lemma cell_at_insert_other (s s' : GameState) (x y x' y' : Z)
    (c : option Structure) :
  wf s -> in_bounds s x y -> (x', y') <> (x, y) ->
  width s' = width s -> height s' = height s ->
  _tiles s' = <[Z.to_nat (y * width s + x) := c]> (_tiles s) ->
  cell_at s' x' y' = cell_at s x' y'.
Proof.
  intros Hwf Hin Hne Hw Hh Ht. unfold cell_at. rewrite Hw, Hh, Ht.
  destruct ((0 <=? x') && (x' <? width s) && (0 <=? y') && (y' <? height s))%Z
    eqn:E; [| reflexivity].
  assert (Hin' : in_bounds s x' y').
  { unfold in_bounds.
    repeat (apply andb_prop in E; destruct E as [E ?]). lia. }
  pose proof (index_in_area s x y Hin).
  pose proof (index_in_area s x' y' Hin').
  rewrite list_lookup_insert_ne; [reflexivity |].
  intros Heq. apply Hne.
  destruct (index_injective s x' y' x y Hin' Hin) as [-> ->]; [lia | reflexivity].
Qed.

Lemma sum_populated_insert_Some (f : Z -> Structure -> Q)
    (l : list (option Structure)) (k : Z) (i : nat) (st : Structure) :
  l !! i = Some None ->
  sum_populated f (enumerate_from k (<[i := Some st]> l)) ==
    sum_populated f (enumerate_from k l) + f (k + Z.of_nat i)%Z st.
Proof.
  revert k i. induction l as [| c l IH]; intros k [| i] Hi; try discriminate.
  - cbn in Hi. injection Hi as ->.
    replace (k + Z.of_nat 0)%Z with k by lia.
    cbn [insert list_insert enumerate_from sum_populated]. lra.
  - cbn in Hi. specialize (IH (k + 1)%Z i Hi).
    replace (k + 1 + Z.of_nat i)%Z with (k + Z.of_nat (S i))%Z in IH by lia.
    destruct c; cbn [insert list_insert enumerate_from sum_populated];
      rewrite IH; lra.
Qed.

Lemma sum_populated_empty (f : Z -> Structure -> Q) (n : nat) (k : Z) :
  sum_populated f (enumerate_from k (replicate n None)) = 0.
Proof. revert k. induction n as [| n IH]; intros k; cbn; auto. Qed.

Lemma init_fields (w h : Z) (s : GameState) :
  GameState_init w h = Ok s ->
  s = mkGameState w h (replicate (Z.to_nat (w * h)) None) 0 0 0.
Proof.
  unfold GameState_init.
  destruct ((w <=? 0) || (h <=? 0))%Z; [discriminate |]. now intros [= <-].
Qed.

Lemma cell_at_init (w h : Z) (s : GameState) (x y : Z) :
  GameState_init w h = Ok s -> cell_at s x y = None.
Proof.
  intros Hinit. pose proof (wf_init w h s Hinit) as Hwf.
  destruct (in_bounds_dec s x y) as [Hin | Hout];
    [| now apply cell_at_outside].
  pose proof (cell_at_lookup s x y Hwf Hin) as Hlook.
  assert (Ht : _tiles s = replicate (Z.to_nat (w * h)) None)
    by now rewrite (init_fields w h s Hinit).
  rewrite Ht in Hlook.
  now apply lookup_replicate_1 in Hlook as [Hc _].
Qed.

Lemma coords_of_cell_index (w x y : Z) :
  (0 <= x < w)%Z ->
  ((y * w + x) mod w = x /\ (y * w + x) / w = y)%Z.
Proof.
  intros Hx. split.
  - rewrite Z.add_comm, Z.mod_add by lia. apply Z.mod_small. lia.
  - rewrite Z.add_comm, Z.div_add by lia. rewrite Z.div_small by lia. lia.
Qed.

(** The engine after two placements on a new board. *)
Lemma two_placed (w h : Z) (s0 : GameState) (x1 y1 x2 y2 : Z)
    (p1 p2 : Structure) :
  GameState_init w h = Ok s0 ->
  in_bounds s0 x1 y1 -> in_bounds s0 x2 y2 ->
  ~ (x2 = x1 /\ y2 = y1) ->
  let s2 := run [Place x1 y1 p1; Place x2 y2 p2] s0 in
  wf s2 /\ width s2 = w /\ height s2 = h /\
  _tiles s2 =
    <[Z.to_nat (y2 * w + x2) := Some p2]>
      (<[Z.to_nat (y1 * w + x1) := Some p1]>
         (replicate (Z.to_nat (w * h)) None)) /\
  energy_storage s2 = 0 /\
  max_storage s2 == storage_capacity p1 + storage_capacity p2 /\
  (forall x y,
      cell_at s2 x y =
        if decide (x = x2 /\ y = y2) then Some p2
        else if decide (x = x1 /\ y = y1) then Some p1
        else None).
Proof.
  intros Hinit Hin1 Hin2 Hne. cbn [run fold_left after].
  pose proof (wf_init w h s0 Hinit) as Hwf0.
  assert (Hw0 : width s0 = w) by now rewrite (init_fields w h s0 Hinit).
  assert (Hh0 : height s0 = h) by now rewrite (init_fields w h s0 Hinit).
  assert (Ht0 : _tiles s0 = replicate (Z.to_nat (w * h)) None)
    by now rewrite (init_fields w h s0 Hinit).
  assert (He0 : energy_storage s0 = 0) by now rewrite (init_fields w h s0 Hinit).
  assert (Hm0 : max_storage s0 = 0) by now rewrite (init_fields w h s0 Hinit).
  destruct (place_structure_empty_fields s0 x1 y1 p1 Hwf0 Hin1
              (cell_at_init w h s0 x1 y1 Hinit))
    as (_ & Hw1 & Hh1 & Ht1 & He1 & Hm1).
  pose proof (wf_place_structure s0 x1 y1 p1 Hwf0) as Hwf1.
  set (s1 := snd (place_structure x1 y1 p1 s0)) in *.
  assert (Hin2' : in_bounds s1 x2 y2)
    by (unfold in_bounds; now rewrite Hw1, Hh1).
  assert (Hcell1 : forall x y,
             cell_at s1 x y =
               if decide (x = x1 /\ y = y1) then Some p1 else None).
  { intros x y. destruct (decide (x = x1 /\ y = y1)) as [[-> ->] | Hxy].
    - now apply (cell_at_insert s0 s1).
    - rewrite (cell_at_insert_other s0 s1 x1 y1 x y (Some p1));
        try assumption.
      + now apply (cell_at_init w h).
      + intros [= -> ->]. now apply Hxy. }
  assert (Hempty2 : cell_at s1 x2 y2 = None).
  { rewrite Hcell1. destruct (decide (x2 = x1 /\ y2 = y1)); tauto. }
  destruct (place_structure_empty_fields s1 x2 y2 p2 Hwf1 Hin2' Hempty2)
    as (_ & Hw2 & Hh2 & Ht2 & He2 & Hm2).
  pose proof (wf_place_structure s1 x2 y2 p2 Hwf1) as Hwf2.
  set (s2 := snd (place_structure x2 y2 p2 s1)) in *.
  split; [exact Hwf2 |].
  split; [congruence |]. split; [congruence |].
  split; [rewrite Ht2, Ht1, Ht0, Hw1, Hw0; reflexivity |].
  split; [congruence |].
  split; [rewrite Hm2, Hm1, Hm0; lra |].
  intros x y. destruct (decide (x = x2 /\ y = y2)) as [[-> ->] | Hxy].
  - now apply (cell_at_insert s1 s2).
  - rewrite (cell_at_insert_other s1 s2 x2 y2 x y (Some p2));
      try assumption.
    + apply Hcell1.
    + intros [= -> ->]. now apply Hxy.
Qed.

Lemma one_same_type_neighbor (s : GameState) (x1 y1 x2 y2 : Z)
    (p1 p2 : Structure) :
  (forall x y,
      cell_at s x y =
        if decide (x = x2 /\ y = y2) then Some p2
        else if decide (x = x1 /\ y = y1) then Some p1
        else None) ->
  orthogonally_adjacent x1 y1 x2 y2 -> name p1 = name p2 ->
  orthogonal_same_type s x1 y1 (name p1) = 1%Z /\
  orthogonal_same_type s x2 y2 (name p2) = 1%Z.
Proof.
  unfold orthogonally_adjacent, orthogonal_same_type.
  intros Hcell Hadj Hname. rewrite !Hcell, <- Hname.
  split;
    repeat match goal with
    | |- context [decide ?P] => destruct (decide P)
    end;
    cbn [same_name]; rewrite <- ?Hname, ?String.eqb_refl; lia.
Qed.

Lemma scenario_production (p : Structure) :
  scenario_producer p -> production p 1 1 == 4.4.
Proof.
  intros (Hb & Ha & _ & _). unfold production, py_max.
  change (inject_Z 1) with 1. qcases; lra.
Qed.

(** The tiles of a board that holds two structures and nothing else. *)
Lemma tiles_of_exactly_two (s : GameState) (x1 y1 x2 y2 : Z)
    (p1 p2 : Structure) :
  wf s -> holds_exactly_two s x1 y1 x2 y2 p1 p2 ->
  _tiles s =
    <[Z.to_nat (y2 * width s + x2) := Some p2]>
      (<[Z.to_nat (y1 * width s + x1) := Some p1]>
         (replicate (Z.to_nat (width s * height s)) None)).
Proof.
  intros Hwf (Hin1 & Hin2 & Hcell).
  pose proof (wf_area s Hwf) as Hlen.
  pose proof (index_in_area s x1 y1 Hin1) as Hi1.
  pose proof (index_in_area s x2 y2 Hin2) as Hi2.
  apply list_eq. intros i.
  destruct (decide (i < length (_tiles s))%nat) as [Hlt | Hge].
  - assert (Hz : (0 <= Z.of_nat i < width s * height s)%Z) by lia.
    destruct (coords_of_index s (Z.of_nat i) Hwf Hz) as [Hin Hdec].
    set (x := (Z.of_nat i mod width s)%Z) in *.
    set (y := (Z.of_nat i / width s)%Z) in *.
    pose proof (cell_at_lookup s x y Hwf Hin) as Hlook.
    rewrite <- Hdec, Nat2Z.id in Hlook. rewrite Hlook, Hcell.
    destruct (decide (x = x2 /\ y = y2)) as [[Ex Ey] | Hne2].
    + replace (Z.to_nat (y2 * width s + x2)) with i by (subst x2 y2; lia).
      rewrite list_lookup_insert_eq; [reflexivity |].
      rewrite length_insert, length_replicate. lia.
    + rewrite list_lookup_insert_ne.
      2:{ intros Heq. apply Hne2.
          destruct (index_injective s x y x2 y2 Hin Hin2); [lia | tauto]. }
      destruct (decide (x = x1 /\ y = y1)) as [[Ex Ey] | Hne1].
      * replace (Z.to_nat (y1 * width s + x1)) with i by (subst x1 y1; lia).
        rewrite list_lookup_insert_eq; [reflexivity |].
        rewrite length_replicate. lia.
      * rewrite list_lookup_insert_ne.
        2:{ intros Heq. apply Hne1.
            destruct (index_injective s x y x1 y1 Hin Hin1); [lia | tauto]. }
        symmetry. apply lookup_replicate_2. lia.
  - rewrite lookup_ge_None_2 by lia.
    symmetry. apply lookup_ge_None_2.
    rewrite !length_insert, length_replicate. lia.
Qed.

Lemma two_producers_totals (s : GameState) (x1 y1 x2 y2 : Z)
    (p1 p2 : Structure) :
  wf s -> holds_exactly_two s x1 y1 x2 y2 p1 p2 ->
  orthogonally_adjacent x1 y1 x2 y2 -> name p1 = name p2 ->
  scenario_producer p1 -> scenario_producer p2 ->
  total_production s 1 == 8.8 /\ total_upkeep s == 0.5 /\
  total_capacity s == 0.
Proof.
  intros Hwf Htwo Hadj Hname Hp1 Hp2.
  assert (Hne : ~ (x2 = x1 /\ y2 = y1))
    by (unfold orthogonally_adjacent in Hadj; lia).
  pose proof (tiles_of_exactly_two s x1 y1 x2 y2 p1 p2 Hwf Htwo) as Ht.
  destruct Htwo as (Hin1 & Hin2 & Hcell).
  destruct (one_same_type_neighbor s x1 y1 x2 y2 p1 p2 Hcell Hadj Hname)
    as [Hn1 Hn2].
  pose proof (index_in_area s x1 y1 Hin1) as Hi1.
  pose proof (index_in_area s x2 y2 Hin2) as Hi2.
  assert (Hdiff : Z.to_nat (y1 * width s + x1)
                  <> Z.to_nat (y2 * width s + x2)).
  { intros Heq. apply Hne.
    destruct (index_injective s x2 y2 x1 y1 Hin2 Hin1); [lia | tauto]. }
  assert (Hlook1 : replicate (Z.to_nat (width s * height s)) (@None Structure)
                     !! Z.to_nat (y1 * width s + x1) = Some None)
    by (apply lookup_replicate_2; lia).
  assert (Hlook2 : <[Z.to_nat (y1 * width s + x1) := Some p1]>
                     (replicate (Z.to_nat (width s * height s)) None)
                     !! Z.to_nat (y2 * width s + x2) = Some None).
  { rewrite list_lookup_insert_ne by exact Hdiff.
    apply lookup_replicate_2. lia. }
  assert (Hprod1 : production p1 1 1 == 4.4) by now apply scenario_production.
  assert (Hprod2 : production p2 1 1 == 4.4) by now apply scenario_production.
  destruct Hp1 as (Hb1 & Ha1 & Hu1 & Hc1), Hp2 as (Hb2 & Ha2 & Hu2 & Hc2).
  destruct Hin1 as [Hx1 _], Hin2 as [Hx2 _].
  destruct (coords_of_cell_index (width s) x1 y1 Hx1) as [Hmod1 Hdiv1].
  destruct (coords_of_cell_index (width s) x2 y2 Hx2) as [Hmod2 Hdiv2].
  assert (Hz : forall (g : Structure -> Q) n,
             sum_structures g (replicate n None) = 0)
    by (intros g n; induction n; cbn; auto).
  split; [| split].
  - unfold total_production, enumerate. rewrite Ht.
    rewrite (sum_populated_insert_Some _ _ _ _ p2 Hlook2).
    rewrite (sum_populated_insert_Some _ _ _ _ p1 Hlook1).
    rewrite sum_populated_empty.
    rewrite !Z.add_0_l, !Z2Nat.id by lia.
    rewrite Hmod1, Hdiv1, Hmod2, Hdiv2, Hn1, Hn2, Hprod1, Hprod2.
    reflexivity.
  - unfold total_upkeep, enumerate. rewrite sum_populated_structures, Ht.
    rewrite (sum_structures_insert_Some _ _ _ p2 Hlook2).
    rewrite (sum_structures_insert_Some _ _ _ p1 Hlook1).
    rewrite Hz, Hu1, Hu2. reflexivity.
  - rewrite total_capacity_sum, Ht.
    rewrite (sum_structures_insert_Some _ _ _ p2 Hlook2).
    rewrite (sum_structures_insert_Some _ _ _ p1 Hlook1).
    rewrite Hz, Hc1, Hc2. reflexivity.
Qed.

(** C7, as written, fails twice.  [drained_two] is an engine a caller can
    hold (a leaky cell placed, one turn, the cell removed, then two solar
    panels side by side): it holds exactly the two producers, yet its
    [energy_storage] is -5 and the turn stores 5 and overflows 3.3.  And
    on [storing_two], a new board with two producers that have the
    parameters the scenario names and a storage capacity of 10 each, the
    turn stores 8.3 and overflows nothing. *)
Lemma two_producers_report_fails :
  (reachable drained_two /\
   holds_exactly_two drained_two 0 0 1 0 SOLAR_PANEL SOLAR_PANEL /\
   orthogonally_adjacent 0 0 1 0 /\ claimed_producer SOLAR_PANEL /\
   ~ scenario_turn drained_two /\
   Report.stored (report_of (advance_turn 1 0 drained_two)) == 5 /\
   Report.overflow (report_of (advance_turn 1 0 drained_two)) == 3.3) /\
  (reachable_with capacity_nonneg storing_two /\
   holds_exactly_two storing_two 0 0 1 0 STORING_PANEL STORING_PANEL /\
   claimed_producer STORING_PANEL /\
   ~ scenario_turn storing_two /\
   Report.stored (report_of (advance_turn 1 0 storing_two)) == 8.3 /\
   Report.overflow (report_of (advance_turn 1 0 storing_two)) == 0).
Proof.
  assert (Hcells : forall (s0 : GameState) (p : Structure),
             wf s0 -> width s0 = 2%Z -> height s0 = 1%Z ->
             _tiles s0 = [None; None] ->
             holds_exactly_two
               (run [Place 0 0 p; Place 1 0 p] s0) 0 0 1 0 p p).
  { intros s0 p Hwf0 Hw0 Hh0 Ht0.
    assert (Hin1 : in_bounds s0 0 0) by (unfold in_bounds; lia).
    assert (Hin2 : in_bounds s0 1 0) by (unfold in_bounds; lia).
    assert (Hempty : forall x y, cell_at s0 x y = None).
    { intros x y. unfold cell_at. rewrite Hw0, Hh0, Ht0.
      destruct ((0 <=? x) && (x <? 2) && (0 <=? y) && (y <? 1))%Z eqn:E;
        [| reflexivity].
      repeat (apply andb_prop in E; destruct E as [E ?]).
      assert (y = 0%Z) by lia. subst y.
      assert (x = 0 \/ x = 1)%Z as [-> | ->] by lia; reflexivity. }
    cbn [run fold_left after].
    destruct (place_structure_empty_fields s0 0 0 p Hwf0 Hin1 (Hempty _ _))
      as (_ & Hw1 & Hh1 & Ht1 & _).
    pose proof (wf_place_structure s0 0 0 p Hwf0) as Hwf1.
    set (s1 := snd (place_structure 0 0 p s0)) in *.
    assert (Hin2' : in_bounds s1 1 0) by (unfold in_bounds; lia).
    assert (Hin1' : in_bounds s1 0 0) by (unfold in_bounds; lia).
    assert (Hc1 : forall x y,
               cell_at s1 x y =
                 if decide (x = 0%Z /\ y = 0%Z) then Some p else None).
    { intros x y. destruct (decide (x = 0%Z /\ y = 0%Z)) as [[-> ->] | Hxy].
      - now apply (cell_at_insert s0 s1).
      - rewrite (cell_at_insert_other s0 s1 0 0 x y (Some p));
          try assumption; [apply Hempty |].
        intros [= -> ->]. now apply Hxy. }
    assert (He2 : cell_at s1 1 0 = None).
    { rewrite Hc1. destruct (decide (1 = 0 /\ 0 = 0)%Z); [lia | reflexivity]. }
    destruct (place_structure_empty_fields s1 1 0 p Hwf1 Hin2' He2)
      as (_ & Hw2 & Hh2 & Ht2 & _).
    set (s2 := snd (place_structure 1 0 p s1)) in *.
    split; [unfold in_bounds; lia |]. split; [unfold in_bounds; lia |].
    intros x y. destruct (decide (x = 1%Z /\ y = 0%Z)) as [[-> ->] | Hxy].
    - now apply (cell_at_insert s1 s2).
    - rewrite (cell_at_insert_other s1 s2 1 0 x y (Some p));
        try assumption; [apply Hc1 |].
      intros [= -> ->]. now apply Hxy. }
  split.
  - split.
    { apply reachable_run; [| repeat constructor].
      apply reachable_run; [apply reachable_board_2x1 | repeat constructor]. }
    split.
    { apply (Hcells drained_board SOLAR_PANEL); try reflexivity.
      apply (reachable_with_wf (fun _ => True)).
      apply reachable_run; [apply reachable_board_2x1 | repeat constructor]. }
    split; [reflexivity |].
    split; [unfold claimed_producer; repeat split; reflexivity |].
    split; [| split; reflexivity].
    intros (r & s' & Hadv & _ & _ & _ & Hst & _).
    vm_compute in Hadv. injection Hadv as <- <-.
    vm_compute in Hst. discriminate Hst.
  - split.
    { apply reachable_run; [apply reachable_board_2x1 |].
      constructor; [cbn; unfold capacity_nonneg; vm_compute; discriminate |].
      constructor; [cbn; unfold capacity_nonneg; vm_compute; discriminate |].
      constructor. }
    split.
    { apply (Hcells board_2x1 STORING_PANEL); try reflexivity.
      apply (reachable_with_wf (fun _ => True)), reachable_board_2x1. }
    split; [unfold claimed_producer; repeat split; reflexivity |].
    split; [| split; reflexivity].
    intros (r & s' & Hadv & _ & _ & _ & Hst & _).
    vm_compute in Hadv. injection Hadv as <- <-.
    vm_compute in Hst. discriminate Hst.
Qed.

(** C7, amended. On an engine on which only structures with a storage
    capacity of at least zero have been placed and which holds exactly
    two structures of one name, each with base production 4.0, adjacency
    bonus 0.4, upkeep 0.25 and storage capacity 0, on two cells that
    share an edge, and no other structure: each of the two cells counts
    one neighbour of its type, and [advance_turn(1.0, 0)] returns a
    report with production 8.8, consumption 0.5, overflow 8.3 and
    stored, discharged and unmet demand all 0. *)
Theorem two_adjacent_producers_report :
  forall (s : GameState) (x1 y1 x2 y2 : Z) (p1 p2 : Structure),
    reachable_with capacity_nonneg s ->
    holds_exactly_two s x1 y1 x2 y2 p1 p2 ->
    orthogonally_adjacent x1 y1 x2 y2 -> name p1 = name p2 ->
    scenario_producer p1 -> scenario_producer p2 ->
    _adjacent_same_type s (y1 * width s + x1) = Ok 1%Z /\
    _adjacent_same_type s (y2 * width s + x2) = Ok 1%Z /\
    scenario_turn s.
Proof.
  intros s x1 y1 x2 y2 p1 p2 Hs Htwo Hadj Hname Hp1 Hp2.
  pose proof (reachable_storage_consistent s Hs) as Hcons.
  pose proof Hcons as (Hwf & _ & H0 & Hmax & Hsum).
  destruct (two_producers_totals s x1 y1 x2 y2 p1 p2
              Hwf Htwo Hadj Hname Hp1 Hp2) as (HP & HU & HM).
  destruct Htwo as (Hin1 & Hin2 & Hcell).
  destruct (one_same_type_neighbor s x1 y1 x2 y2 p1 p2 Hcell Hadj Hname)
    as [Hn1 Hn2].
  assert (Hadj_at : forall x y p,
             in_bounds s x y -> cell_at s x y = Some p ->
             _adjacent_same_type s (y * width s + x) =
               Ok (orthogonal_same_type s x y (name p))).
  { intros x y p Hin Hc.
    pose proof (index_in_area s x y Hin) as Hidx.
    destruct (coords_of_cell_index (width s) x y (proj1 Hin)) as [Hmod Hdiv].
    rewrite (adjacent_same_type_coords s (y * width s + x) p Hwf Hidx).
    - now rewrite Hmod, Hdiv.
    - rewrite getitem_cell by assumption. now rewrite Hc. }
  assert (Hne : ~ (x2 = x1 /\ y2 = y1))
    by (unfold orthogonally_adjacent in Hadj; lia).
  split; [rewrite (Hadj_at x1 y1 p1 Hin1), Hn1; [reflexivity |] |].
  { rewrite Hcell. destruct (decide (x1 = x2 /\ y1 = y2)); [lia |].
    destruct (decide (x1 = x1 /\ y1 = y1)); [reflexivity | lia]. }
  split; [rewrite (Hadj_at x2 y2 p2 Hin2), Hn2; [reflexivity |] |].
  { rewrite Hcell. destruct (decide (x2 = x2 /\ y2 = y2)); [reflexivity | lia]. }
  destruct (turn_accounting_consistent s 1 0 Hcons ltac:(lra) ltac:(lra))
    as (r & s' & Hadv & HrP & HrU & Hpos & _).
  exists r, s'. split; [exact Hadv |].
  rewrite HP, HU in *.
  destruct Hpos as (Hst & _ & Hov & Hdis & Hun); [lra |].
  assert (Hstored : Report.stored r == 0).
  { revert Hst. min_cases; lra. }
  unfold scenario_report. repeat split; lra.
Qed.

(** ** The properties at the boards of the test suite *)

Lemma catalog_capacity_nonneg :
  capacity_nonneg SOLAR_PANEL /\ capacity_nonneg BATTERY_BANK /\
  capacity_nonneg HABITAT_DOME.
Proof. unfold capacity_nonneg. repeat split; vm_compute; discriminate. Qed.

Lemma reachable_storage_board : reachable_with capacity_nonneg storage_board.
Proof.
  apply reachable_run; [now apply (reach_init capacity_nonneg 2 2) |].
  constructor; [apply catalog_capacity_nonneg |].
  constructor; [apply catalog_capacity_nonneg |]. constructor.
Qed.


Lemma energy_storage_within_capacity_witness :
  (0 <= energy_storage storage_board /\
   energy_storage storage_board <= max_storage storage_board) /\
  (energy_storage (snd (place_structure 1 1 BATTERY_BANK storage_board))
     = energy_storage storage_board /\
   max_storage storage_board
     <= max_storage (snd (place_structure 1 1 BATTERY_BANK storage_board))).
Proof.
  split.
  - exact (proj1 energy_storage_within_capacity storage_board
             reachable_storage_board).
  - exact (proj2 energy_storage_within_capacity storage_board 1%Z 1%Z
             BATTERY_BANK
             (proj1 (proj2 catalog_capacity_nonneg))).
Defined.

Lemma max_storage_is_total_capacity_witness :
  max_storage storage_board == total_capacity storage_board /\
  py_max 0 (max_storage storage_board - storage_capacity BATTERY_BANK)
    == max_storage storage_board - storage_capacity BATTERY_BANK /\
  max_storage (snd (advance_turn 1 2 storage_board))
    == max_storage storage_board.
Proof.
  destruct (max_storage_is_total_capacity storage_board reachable_storage_board)
    as (Hsum & Hfloor & Hturn).
  split; [exact Hsum |]. split; [| exact (Hturn 1 2)].
  apply (Hfloor 1%Z 0%Z BATTERY_BANK); [| reflexivity].
  unfold in_bounds. repeat split; vm_compute; congruence.
Defined.

Lemma calls_fail_exactly_when_specified_witness :
  reachable board_2x2 /\
  fails (Place 5 5 SOLAR_PANEL) board_2x2 /\
  after (Place 5 5 SOLAR_PANEL) board_2x2 = board_2x2 /\
  ~ fails (Place 0 0 HABITAT_DOME) board_2x2.
Proof.
  assert (Hr : reachable board_2x2) by now apply (reach_init _ 2 2).
  destruct (proj1 calls_fail_exactly_when_specified board_2x2 Hr
              (Place 5 5 SOLAR_PANEL)) as [Hiff Hsame].
  destruct (proj1 calls_fail_exactly_when_specified board_2x2 Hr
              (Place 0 0 HABITAT_DOME)) as [Hiff' _].
  assert (Hfail : fails (Place 5 5 SOLAR_PANEL) board_2x2).
  { apply Hiff. left. unfold in_bounds. cbn. lia. }
  split; [exact Hr |]. split; [exact Hfail |]. split; [exact (Hsame Hfail) |].
  intros Hf. apply Hiff' in Hf. destruct Hf as [Hout | [other Hocc]].
  - apply Hout. unfold in_bounds. cbn. lia.
  - discriminate Hocc.
Defined.

Lemma two_adjacent_producers_report_witness :
  let s := run [Place 0 0 SOLAR_PANEL; Place 1 0 SOLAR_PANEL] board_2x1 in
  _adjacent_same_type s (0 * width s + 0) = Ok 1%Z /\
  _adjacent_same_type s (0 * width s + 1) = Ok 1%Z /\
  scenario_turn s.
Proof.
  assert (Hin1 : in_bounds board_2x1 0 0) by (unfold in_bounds; cbn; lia).
  assert (Hin2 : in_bounds board_2x1 1 0) by (unfold in_bounds; cbn; lia).
  assert (Hne : ~ (1 = 0 /\ 0 = 0)%Z) by lia.
  destruct (two_placed 2 1 board_2x1 0 0 1 0 SOLAR_PANEL SOLAR_PANEL
              eq_refl Hin1 Hin2 Hne) as (_ & Hw & Hh & _ & _ & _ & Hcell).
  assert (Hr : reachable_with capacity_nonneg
                 (run [Place 0 0 SOLAR_PANEL; Place 1 0 SOLAR_PANEL] board_2x1)).
  { apply reachable_run; [apply reachable_board_2x1 |].
    constructor; [apply catalog_capacity_nonneg |].
    constructor; [apply catalog_capacity_nonneg |]. constructor. }
  assert (Htwo : holds_exactly_two
                   (run [Place 0 0 SOLAR_PANEL; Place 1 0 SOLAR_PANEL] board_2x1)
                   0 0 1 0 SOLAR_PANEL SOLAR_PANEL).
  { split; [unfold in_bounds; rewrite Hw, Hh; lia |].
    split; [unfold in_bounds; rewrite Hw, Hh; lia | exact Hcell]. }
  assert (Hadj : orthogonally_adjacent 0 0 1 0) by reflexivity.
  assert (Hp : scenario_producer SOLAR_PANEL)
    by (unfold scenario_producer; repeat split; reflexivity).
  exact (two_adjacent_producers_report _ 0 0 1 0 SOLAR_PANEL SOLAR_PANEL
           Hr Htwo Hadj eq_refl Hp Hp).
Defined.

(** ** tests/test_state.py, run on the embedding *)

Example test_storage_clamps_and_deficits_are_tracked :
  match advance_turn 1 2 storage_board with
  | (Ok first, state) =>
      Report.overflow first == 0 /\ energy_storage state == 1.7 /\
      match advance_turn 0.2 3 state with
      | (Ok second, state) =>
          Report.stored second == 0 /\ Report.discharged second == 1.7 /\
          Report.unmet_demand second == 0.8 /\
          energy_storage state == 0 /\ unmet_demand state == 0.8
      | (Raise _, _) => False
      end
  | (Raise _, _) => False
  end.
Proof. vm_compute. repeat split. Qed.

Example test_cannot_place_on_invalid_tile :
  fst (place_structure 5 5 SOLAR_PANEL board_2x2)
    = Raise PlacementError_outside /\
  fst (place_structure 0 0 SOLAR_PANEL
         (snd (place_structure 0 0 HABITAT_DOME board_2x2)))
    = Raise PlacementError_occupied.
Proof. split; reflexivity. Qed.

(** * Further properties of the engine *)

(** ** The report balances *)

(** X1. Under exact arithmetic (floats read as rationals), whatever the
    state, the report of a turn that returns balances:
    its [net] property (production minus consumption) is what was stored
    plus what overflowed, minus what was discharged and what stayed
    unmet. *)
Theorem report_net_balances :
  forall (s : GameState) (sunlight demand : Q) (r : EnergyReport)
         (s' : GameState),
    advance_turn sunlight demand s = (Ok r, s') ->
    Report.net r ==
      Report.stored r + Report.overflow r
      - Report.discharged r - Report.unmet_demand r.
Proof.
  intros s sunlight demand r s' Hadv.
  rewrite advance_turn_guard in Hadv. unfold before_guard in Hadv.
  destruct (Qlt_bool sunlight 0); [discriminate |].
  destruct (Qlt_bool demand 0); [discriminate |].
  destruct (scan_tiles s sunlight (enumerate (_tiles s)) (mkTotals 0 0 0))
    as [t | e]; [| discriminate].
  unfold settle in Hadv.
  destruct (Qle_bool 0 (acc_production t - acc_upkeep t - demand));
    injection Hadv as <- _; unfold Report.net; cbn -[py_min]; lra.
Qed.

Lemma report_net_balances_witness :
  match fst (advance_turn 1 2 storage_board) with
  | Ok r =>
      Report.net r ==
        Report.stored r + Report.overflow r
        - Report.discharged r - Report.unmet_demand r
  | Raise _ => False
  end.
Proof.
  destruct (advance_turn 1 2 storage_board) as [[r | e] s'] eqn:Hadv;
    cbn [fst].
  - exact (report_net_balances storage_board 1 2 r s' Hadv).
  - vm_compute in Hadv. discriminate Hadv.
Defined.

(** ** Indices and coordinates *)

(** X2. On an engine a caller can hold, [_index] is a bijection between
    the coordinates on the board and the indices [0 .. width*height - 1]:
    it returns [y * width + x], inside that range, from which [%] and
    [//] by the width give [x] and [y] back; and every index of the range
    is the index of its own remainder and quotient. *)
Theorem index_round_trip :
  forall s : GameState, reachable s ->
    (forall x y : Z, in_bounds s x y ->
       exists i : Z,
         _index s x y = Ok i /\ (0 <= i < width s * height s)%Z /\
         (i mod width s = x)%Z /\ (i / width s = y)%Z) /\
    (forall i : Z, (0 <= i < width s * height s)%Z ->
       in_bounds s (i mod width s) (i / width s) /\
       _index s (i mod width s) (i / width s) = Ok i).
Proof.
  intros s Hs. pose proof (reachable_with_wf _ s Hs) as Hwf. split.
  - intros x y Hin. exists (y * width s + x)%Z.
    split; [now apply index_ok |]. split; [now apply index_in_area |].
    destruct Hin as [Hx _]. now apply coords_of_cell_index.
  - intros i Hi. destruct (coords_of_index s i Hwf Hi) as [Hin Hdecomp].
    split; [exact Hin |]. rewrite index_ok by exact Hin. now rewrite <- Hdecomp.
Qed.

Lemma index_round_trip_witness :
  (exists i : Z,
      _index storage_board 1 1 = Ok i /\
      (0 <= i < width storage_board * height storage_board)%Z /\
      (i mod width storage_board = 1)%Z /\ (i / width storage_board = 1)%Z) /\
  _index storage_board (3 mod width storage_board) (3 / width storage_board)
    = Ok 3%Z.
Proof.
  assert (Hr : reachable storage_board).
  { apply reachable_run; [now apply (reach_init _ 2 2) |].
    repeat constructor. }
  destruct (index_round_trip storage_board Hr) as [Hto Hfrom]. split.
  - apply Hto. unfold in_bounds. repeat split; vm_compute; congruence.
  - apply Hfrom. split; vm_compute; congruence.
Defined.

(** ** Neighbours *)

Lemma In_optional (b : bool) (a j : Z) :
  In j (if b then [a] else []) <-> b = true /\ j = a.
Proof.
  destruct b; cbn; split.
  - intros [<- | []]. auto.
  - intros [_ ->]. auto.
  - intros [].
  - intros [Hf _]. discriminate.
Qed.

Lemma neighbors_cases (s : GameState) (i j : Z) (ns : list Z) :
  _neighbors s i = Ok ns ->
  (In j ns <->
     ((i mod width s > 0)%Z /\ j = (i - 1)%Z) \/
     ((i mod width s < width s - 1)%Z /\ j = (i + 1)%Z) \/
     ((i / width s > 0)%Z /\ j = (i - width s)%Z) \/
     ((i / width s < height s - 1)%Z /\ j = (i + width s)%Z)).
Proof.
  unfold _neighbors. destruct (width s =? 0)%Z; [discriminate |].
  intros [= <-]. rewrite !in_app_iff, !In_optional.
  rewrite Z.gtb_ltb, !Z.ltb_lt, Z.gtb_ltb, !Z.ltb_lt.
  intuition lia.
Qed.

(** X3. On an engine a caller can hold, [_neighbors] of an index of the
    board never raises and yields, without repetition, exactly the
    indices of the board whose cell shares an edge with the cell of the
    index: at most four, none of them diagonal, none reached by wrapping
    around a row end.  So the relation is symmetric. *)
Theorem neighbors_are_the_edge_sharing_cells :
  forall (s : GameState) (i : Z),
    reachable s -> (0 <= i < width s * height s)%Z ->
    exists ns : list Z,
      _neighbors s i = Ok ns /\ List.NoDup ns /\ (length ns <= 4)%nat /\
      (forall j : Z,
          In j ns <->
            (0 <= j < width s * height s)%Z /\
            orthogonally_adjacent (i mod width s) (i / width s)
                                  (j mod width s) (j / width s)) /\
      (forall j : Z,
          In j ns ->
          exists ms : list Z, _neighbors s j = Ok ms /\ In i ms).
Proof.
  intros s i Hs Hi. pose proof (reachable_with_wf _ s Hs) as Hwf.
  assert (Hchar : forall (a : Z) (ns : list Z),
             (0 <= a < width s * height s)%Z -> _neighbors s a = Ok ns ->
             forall j : Z,
               In j ns <->
                 (0 <= j < width s * height s)%Z /\
                 orthogonally_adjacent (a mod width s) (a / width s)
                                       (j mod width s) (j / width s)).
  { intros a ns Ha Hns j. rewrite (neighbors_cases s a j ns Hns).
    destruct (coords_of_index s a Hwf Ha) as [[Hx Hy] Hdec].
    set (x := (a mod width s)%Z) in *. set (y := (a / width s)%Z) in *.
    unfold orthogonally_adjacent. split.
    - intros Hcase.
      assert (Hj : exists x' y',
                 j = (y' * width s + x')%Z /\ (0 <= x' < width s)%Z /\
                 (0 <= y' < height s)%Z /\
                 (Z.abs (x - x') + Z.abs (y - y') = 1)%Z).
      { destruct Hcase as [[? ->] | [[? ->] | [[? ->] | [? ->]]]].
        - exists (x - 1)%Z, y. repeat split; lia.
        - exists (x + 1)%Z, y. repeat split; lia.
        - exists x, (y - 1)%Z. repeat split; lia.
        - exists x, (y + 1)%Z. repeat split; lia. }
      destruct Hj as (x' & y' & -> & Hx' & Hy' & Hadj).
      destruct (coords_of_cell_index (width s) x' y' Hx') as [-> ->].
      split; [nia | exact Hadj].
    - intros [Hj Hadj].
      destruct (coords_of_index s j Hwf Hj) as [[Hx' Hy'] Hdec'].
      set (x' := (j mod width s)%Z) in *. set (y' := (j / width s)%Z) in *.
      assert (Hdir : ((x' = x - 1 /\ y' = y) \/ (x' = x + 1 /\ y' = y) \/
                      (x' = x /\ y' = y - 1) \/ (x' = x /\ y' = y + 1))%Z)
        by lia.
      destruct Hdir as [[Ex Ey] | [[Ex Ey] | [[Ex Ey] | [Ex Ey]]]];
        rewrite Ex, Ey in Hdec'.
      + left. split; lia.
      + right; left. split; lia.
      + right; right; left. split; lia.
      + right; right; right. split; lia. }
  destruct Hwf as (Hw & Hh & Hlen).
  assert (Hns : exists ns, _neighbors s i = Ok ns /\ List.NoDup ns /\
                           (length ns <= 4)%nat).
  { unfold _neighbors. destruct (width s =? 0)%Z eqn:Ew; [lia |].
    eexists. split; [reflexivity |].
    pose proof (Z.mod_pos_bound i (width s) Hw) as Hmod.
    rewrite !Z.gtb_ltb.
    destruct (0 <? i mod width s)%Z eqn:E1;
      [apply Z.ltb_lt in E1 | apply Z.ltb_ge in E1];
    destruct (i mod width s <? width s - 1)%Z eqn:E2;
      [apply Z.ltb_lt in E2 | apply Z.ltb_ge in E2 |
       apply Z.ltb_lt in E2 | apply Z.ltb_ge in E2];
    destruct (0 <? i / width s)%Z, (i / width s <? height s - 1)%Z;
      cbn [app length]; (split; [| lia]);
      repeat (apply List.NoDup_cons; [cbn; intuition lia |]);
      apply List.NoDup_nil. }
  destruct Hns as (ns & Hns & Hnodup & Hlength).
  exists ns. split; [exact Hns |]. split; [exact Hnodup |].
  split; [exact Hlength |]. split; [now apply Hchar |].
  intros j Hj. apply (Hchar i ns Hi Hns) in Hj as [Hjr Hadj].
  assert (Hms : exists ms, _neighbors s j = Ok ms).
  { unfold _neighbors. destruct (width s =? 0)%Z eqn:Ew; [lia |].
    eexists; reflexivity. }
  destruct Hms as [ms Hms]. exists ms. split; [exact Hms |].
  apply (Hchar j ms Hjr Hms). split; [exact Hi |].
  unfold orthogonally_adjacent in *. lia.
Qed.

Lemma reachable_storage_board_any : reachable storage_board.
Proof.
  apply reachable_run; [now apply (reach_init _ 2 2) |].
  repeat constructor.
Qed.

Lemma neighbors_are_the_edge_sharing_cells_witness :
  exists ns : list Z,
    _neighbors storage_board 0 = Ok ns /\ List.NoDup ns /\
    (length ns <= 4)%nat /\
    (forall j : Z,
        In j ns <->
          (0 <= j < width storage_board * height storage_board)%Z /\
          orthogonally_adjacent
            (0 mod width storage_board) (0 / width storage_board)
            (j mod width storage_board) (j / width storage_board)) /\
    (forall j : Z,
        In j ns ->
        exists ms : list Z, _neighbors storage_board j = Ok ms /\ In 0%Z ms).
Proof.
  apply (neighbors_are_the_edge_sharing_cells storage_board 0
           reachable_storage_board_any).
  split; vm_compute; congruence.
Defined.

Lemma same_name_range (nm : string) (c : option Structure) :
  (0 <= same_name nm c <= 1)%Z.
Proof.
  destruct c as [other |]; cbn; [| lia].
  destruct (String.eqb (name other) nm); lia.
Qed.

(** X4. On an engine a caller can hold, [_adjacent_same_type] of an index
    of the board never raises: it returns 0 for an empty cell and, for a
    cell holding a structure, the number of cells to the left, right,
    above and below on the board that hold a structure of the same name,
    so a number from 0 to 4.  Past the end of the board it raises
    [IndexError]. *)
Theorem adjacent_same_type_counts_neighbours :
  forall s : GameState, reachable s ->
    (forall i : Z, (0 <= i < width s * height s)%Z ->
       exists n : Z,
         _adjacent_same_type s i = Ok n /\ (0 <= n <= 4)%Z /\
         match cell_at s (i mod width s) (i / width s) with
         | None => n = 0%Z
         | Some structure =>
             n = orthogonal_same_type s (i mod width s) (i / width s)
                                      (name structure)
         end) /\
    (forall i : Z, (width s * height s <= i)%Z ->
       _adjacent_same_type s i = Raise IndexError).
Proof.
  intros s Hs. pose proof (reachable_with_wf _ s Hs) as Hwf. split.
  - intros i Hi. destruct (coords_of_index s i Hwf Hi) as [Hin Hdec].
    pose proof (getitem_cell s _ _ Hwf Hin) as Hget. rewrite <- Hdec in Hget.
    destruct (cell_at s (i mod width s) (i / width s)) as [st |] eqn:Hcell.
    + exists (orthogonal_same_type s (i mod width s) (i / width s) (name st)).
      split; [now apply adjacent_same_type_coords |].
      split; [| reflexivity]. unfold orthogonal_same_type.
      pose proof (same_name_range (name st)
                    (cell_at s (i mod width s - 1) (i / width s))).
      pose proof (same_name_range (name st)
                    (cell_at s (i mod width s + 1) (i / width s))).
      pose proof (same_name_range (name st)
                    (cell_at s (i mod width s) (i / width s - 1))).
      pose proof (same_name_range (name st)
                    (cell_at s (i mod width s) (i / width s + 1))).
      lia.
    + exists 0%Z. unfold _adjacent_same_type. rewrite Hget.
      split; [reflexivity |]. split; [lia | reflexivity].
  - intros i Hi. pose proof (wf_area s Hwf) as Hlen.
    unfold _adjacent_same_type.
    replace (py_getitem (_tiles s) i) with (@None (option Structure));
      [reflexivity |].
    symmetry. destruct Hwf as (Hw & Hh & _).
    rewrite py_getitem_nonneg by nia.
    apply lookup_ge_None_2. lia.
Qed.

Lemma adjacent_same_type_counts_neighbours_witness :
  (exists n : Z,
      _adjacent_same_type storage_board 0 = Ok n /\ (0 <= n <= 4)%Z /\
      match cell_at storage_board (0 mod width storage_board)
                    (0 / width storage_board) with
      | None => n = 0%Z
      | Some structure =>
          n = orthogonal_same_type storage_board
                (0 mod width storage_board) (0 / width storage_board)
                (name structure)
      end) /\
  _adjacent_same_type storage_board 4 = Raise IndexError.
Proof.
  destruct (adjacent_same_type_counts_neighbours storage_board
              reachable_storage_board_any) as [Hin Hout].
  split.
  - apply Hin. split; vm_compute; congruence.
  - apply Hout. vm_compute. congruence.
Defined.

(** ** The snapshot *)

(** X5. On an engine a caller can hold, [structures()] never raises and
    changes nothing; the tuple it returns has [width * height] entries,
    and its entry [y * width + x] is the content of the cell [(x, y)]:
    the rows one after another. *)
Theorem structures_is_row_major :
  forall s : GameState, reachable s ->
    exists snapshot : list (option Structure),
      structures s = (Ok snapshot, s) /\
      length snapshot = Z.to_nat (width s * height s) /\
      (forall x y : Z, in_bounds s x y ->
         snapshot !! Z.to_nat (y * width s + x) = Some (cell_at s x y)).
Proof.
  intros s Hs. pose proof (reachable_with_wf _ s Hs) as Hwf.
  exists (_tiles s). split; [reflexivity |]. split; [apply Hwf |].
  intros x y Hin. now apply cell_at_lookup.
Qed.

Lemma structures_is_row_major_witness :
  exists snapshot : list (option Structure),
    structures storage_board = (Ok snapshot, storage_board) /\
    length snapshot = Z.to_nat (width storage_board * height storage_board) /\
    (forall x y : Z, in_bounds storage_board x y ->
       snapshot !! Z.to_nat (y * width storage_board + x)
         = Some (cell_at storage_board x y)).
Proof.
  exact (structures_is_row_major storage_board reachable_storage_board_any).
Defined.

(** ** What a placement and a removal change *)

(** X6. On an engine a caller can hold, placing a structure on an empty
    cell of the board returns; afterwards that cell holds the structure
    and every other cell is as before; the board keeps its size,
    [energy_storage] and [unmet_demand] are untouched and [max_storage]
    has grown by the structure's storage capacity. *)
Theorem place_structure_changes_one_cell :
  forall (s : GameState) (x y : Z) (st : Structure),
    reachable s -> in_bounds s x y -> cell_at s x y = None ->
    let placed := place_structure x y st s in
    fst placed = Ok tt /\
    cell_at (snd placed) x y = Some st /\
    (forall x' y' : Z,
        (x', y') <> (x, y) ->
        cell_at (snd placed) x' y' = cell_at s x' y') /\
    width (snd placed) = width s /\ height (snd placed) = height s /\
    energy_storage (snd placed) = energy_storage s /\
    unmet_demand (snd placed) = unmet_demand s /\
    max_storage (snd placed) == max_storage s + storage_capacity st.
Proof.
  intros s x y st Hs Hin Hcell. cbn zeta.
  pose proof (reachable_with_wf _ s Hs) as Hwf.
  destruct (place_structure_empty_fields s x y st Hwf Hin Hcell)
    as (Hok & Hw & Hh & Ht & He & Hm).
  split; [exact Hok |].
  split; [now apply (cell_at_insert s) |].
  split; [intros x' y' Hne; now apply (cell_at_insert_other s _ x y x' y' (Some st)) |].
  split; [exact Hw |]. split; [exact Hh |]. split; [exact He |].
  split; [apply place_structure_unmet | exact Hm].
Qed.

Lemma place_structure_changes_one_cell_witness :
  let placed := place_structure 1 1 HABITAT_DOME storage_board in
  fst placed = Ok tt /\
  cell_at (snd placed) 1 1 = Some HABITAT_DOME /\
  (forall x' y' : Z,
      (x', y') <> (1, 1)%Z ->
      cell_at (snd placed) x' y' = cell_at storage_board x' y') /\
  width (snd placed) = width storage_board /\
  height (snd placed) = height storage_board /\
  energy_storage (snd placed) = energy_storage storage_board /\
  unmet_demand (snd placed) = unmet_demand storage_board /\
  max_storage (snd placed)
    == max_storage storage_board + storage_capacity HABITAT_DOME.
Proof.
  apply (place_structure_changes_one_cell storage_board 1 1 HABITAT_DOME
           reachable_storage_board_any).
  - unfold in_bounds. repeat split; vm_compute; congruence.
  - reflexivity.
Defined.

(** X7. On an engine a caller can hold, removing the structure of an
    occupied cell returns; afterwards that cell is empty and every other
    cell is as before, the board keeps its size and [unmet_demand] is
    untouched.  [energy_storage] never grows.  When the structure had a
    storage capacity other than zero, [max_storage] becomes
    max(0, max_storage - capacity) and [energy_storage] the smaller of
    its value and that new ceiling; when its capacity was zero, both
    fields stay as they were. *)
Theorem remove_structure_changes_one_cell :
  forall (s : GameState) (x y : Z) (st : Structure),
    reachable s -> in_bounds s x y -> cell_at s x y = Some st ->
    let removed := remove_structure x y s in
    fst removed = Ok tt /\
    cell_at (snd removed) x y = None /\
    (forall x' y' : Z,
        (x', y') <> (x, y) ->
        cell_at (snd removed) x' y' = cell_at s x' y') /\
    width (snd removed) = width s /\ height (snd removed) = height s /\
    unmet_demand (snd removed) = unmet_demand s /\
    energy_storage (snd removed) <= energy_storage s /\
    (~ storage_capacity st == 0 ->
       max_storage (snd removed)
         == Qmax 0 (max_storage s - storage_capacity st) /\
       energy_storage (snd removed)
         == Qmin (energy_storage s) (max_storage (snd removed))) /\
    (storage_capacity st == 0 ->
       max_storage (snd removed) = max_storage s /\
       energy_storage (snd removed) = energy_storage s).
Proof.
  intros s x y st Hs Hin Hcell. cbn zeta.
  pose proof (reachable_with_wf _ s Hs) as Hwf.
  destruct (remove_structure_occupied_fields s x y st Hwf Hin Hcell)
    as (Hok & Hw & Hh & Ht & _).
  split; [exact Hok |].
  split; [now apply (cell_at_insert s) |].
  split; [intros x' y' Hne; now apply (cell_at_insert_other s _ x y x' y' None) |].
  split; [exact Hw |]. split; [exact Hh |].
  split; [apply remove_structure_unmet |].
  rewrite (remove_structure_occupied s x y st) by assumption.
  cbn zeta. destruct (truthy (storage_capacity st)) eqn:Htruthy;
    cbn [snd energy_storage max_storage set_tiles set_max_storage
         set_energy_storage].
  - apply truthy_true in Htruthy.
    split; [min_cases; lra |]. split; [| intros Hz; contradiction].
    intros _. split; [apply py_max_Qmax | apply py_min_Qmin].
  - apply truthy_false in Htruthy.
    split; [lra |]. split; [intros Hnz; contradiction |].
    intros _. split; reflexivity.
Qed.

Lemma remove_structure_changes_one_cell_witness :
  let removed := remove_structure 1 0 storage_board in
  fst removed = Ok tt /\
  cell_at (snd removed) 1 0 = None /\
  (forall x' y' : Z,
      (x', y') <> (1, 0)%Z ->
      cell_at (snd removed) x' y' = cell_at storage_board x' y') /\
  width (snd removed) = width storage_board /\
  height (snd removed) = height storage_board /\
  unmet_demand (snd removed) = unmet_demand storage_board /\
  energy_storage (snd removed) <= energy_storage storage_board /\
  (~ storage_capacity BATTERY_BANK == 0 ->
     max_storage (snd removed)
       == Qmax 0 (max_storage storage_board - storage_capacity BATTERY_BANK) /\
     energy_storage (snd removed)
       == Qmin (energy_storage storage_board) (max_storage (snd removed))) /\
  (storage_capacity BATTERY_BANK == 0 ->
     max_storage (snd removed) = max_storage storage_board /\
     energy_storage (snd removed) = energy_storage storage_board).
Proof.
  apply (remove_structure_changes_one_cell storage_board 1 0 BATTERY_BANK
           reachable_storage_board_any).
  - unfold in_bounds. repeat split; vm_compute; congruence.
  - reflexivity.
Defined.

(** X8. Under exact arithmetic (floats read as rationals), on an engine
    on which only structures with a storage capacity of at least zero
    have been placed, removing the structure of an occupied
    cell and placing the same structure back returns both times and
    restores the tiles and [max_storage]; [unmet_demand] is untouched,
    but the stored energy is cut to what the board could hold without
    the structure: min(energy_storage, max_storage - capacity). *)
Theorem remove_then_place_restores_board :
  forall (s : GameState) (x y : Z) (st : Structure),
    reachable_with capacity_nonneg s ->
    in_bounds s x y -> cell_at s x y = Some st ->
    let removed := remove_structure x y s in
    let placed := place_structure x y st (snd removed) in
    fst removed = Ok tt /\ fst placed = Ok tt /\
    _tiles (snd placed) = _tiles s /\
    max_storage (snd placed) == max_storage s /\
    unmet_demand (snd placed) = unmet_demand s /\
    energy_storage (snd placed)
      == Qmin (energy_storage s) (max_storage s - storage_capacity st).
Proof.
  intros s x y st Hs Hin Hcell. cbn zeta.
  pose proof (reachable_storage_consistent s Hs) as Hcons.
  pose proof Hcons as (Hwf & _ & H0 & Hmax & _).
  pose proof (removed_capacity_covered s x y st Hcons Hin Hcell) as Hcover.
  destruct (remove_structure_occupied_fields s x y st Hwf Hin Hcell)
    as (Hok1 & Hw1 & Hh1 & Ht1 & Hm1).
  specialize (Hm1 Hcover).
  pose proof (wf_remove_structure s x y Hwf) as Hwf1.
  assert (He1 : energy_storage (snd (remove_structure x y s))
                  == Qmin (energy_storage s)
                          (max_storage s - storage_capacity st)).
  { rewrite (remove_structure_occupied s x y st) by assumption.
    cbn zeta. destruct (truthy (storage_capacity st)) eqn:Htruthy;
      cbn [snd energy_storage max_storage set_tiles set_max_storage
           set_energy_storage].
    - destruct (py_max_cases 0 (max_storage s - storage_capacity st))
        as [[? ->] | [? ->]]; min_cases; lra.
    - apply truthy_false in Htruthy. min_cases; lra. }
  pose proof (remove_structure_unmet s x y) as Hu1.
  set (s1 := snd (remove_structure x y s)) in *.
  assert (Hin1 : in_bounds s1 x y) by (unfold in_bounds; now rewrite Hw1, Hh1).
  assert (Hcell1 : cell_at s1 x y = None) by (now apply (cell_at_insert s s1)).
  destruct (place_structure_empty_fields s1 x y st Hwf1 Hin1 Hcell1)
    as (Hok2 & _ & _ & Ht2 & He2 & Hm2).
  split; [exact Hok1 |]. split; [exact Hok2 |].
  split.
  { rewrite Ht2, Ht1, Hw1, list_insert_insert_eq.
    apply list_insert_id. rewrite (cell_at_lookup s x y Hwf Hin).
    now rewrite Hcell. }
  split; [rewrite Hm2, Hm1; lra |].
  split; [rewrite place_structure_unmet; exact Hu1 |].
  rewrite He2. exact He1.
Qed.

Lemma remove_then_place_restores_board_witness :
  let removed := remove_structure 1 0 storage_board in
  let placed := place_structure 1 0 BATTERY_BANK (snd removed) in
  fst removed = Ok tt /\ fst placed = Ok tt /\
  _tiles (snd placed) = _tiles storage_board /\
  max_storage (snd placed) == max_storage storage_board /\
  unmet_demand (snd placed) = unmet_demand storage_board /\
  energy_storage (snd placed)
    == Qmin (energy_storage storage_board)
            (max_storage storage_board - storage_capacity BATTERY_BANK).
Proof.
  apply (remove_then_place_restores_board storage_board 1 0 BATTERY_BANK
           reachable_storage_board).
  - unfold in_bounds. repeat split; vm_compute; congruence.
  - reflexivity.
Defined.

(** X9. Under exact arithmetic (floats read as rationals), on an engine
    a caller can hold, two placements on two different empty cells of
    the board commute: in either order both return and
    they leave the same tiles, the same [energy_storage] and
    [unmet_demand] and equal [max_storage]. *)
Theorem placements_commute :
  forall (s : GameState) (x1 y1 x2 y2 : Z) (p1 p2 : Structure),
    reachable s ->
    in_bounds s x1 y1 -> in_bounds s x2 y2 ->
    cell_at s x1 y1 = None -> cell_at s x2 y2 = None ->
    (x1, y1) <> (x2, y2) ->
    let a := run [Place x1 y1 p1; Place x2 y2 p2] s in
    let b := run [Place x2 y2 p2; Place x1 y1 p1] s in
    cell_at a x1 y1 = Some p1 /\ cell_at a x2 y2 = Some p2 /\
    _tiles a = _tiles b /\
    energy_storage a = energy_storage b /\
    unmet_demand a = unmet_demand b /\
    max_storage a == max_storage b.
Proof.
  intros s x1 y1 x2 y2 p1 p2 Hs Hin1 Hin2 Hc1 Hc2 Hne.
  cbn [run fold_left after].
  pose proof (reachable_with_wf _ s Hs) as Hwf.
  assert (Hidx : Z.to_nat (y1 * width s + x1) <> Z.to_nat (y2 * width s + x2)).
  { pose proof (index_in_area s x1 y1 Hin1).
    pose proof (index_in_area s x2 y2 Hin2).
    intros Heq. apply Hne.
    destruct (index_injective s x1 y1 x2 y2 Hin1 Hin2) as [-> ->];
      [lia | reflexivity]. }
  assert (Hstep : forall xa ya xb yb pa pb,
             in_bounds s xa ya -> in_bounds s xb yb ->
             cell_at s xa ya = None -> cell_at s xb yb = None ->
             (xb, yb) <> (xa, ya) ->
             let t := snd (place_structure xb yb pb
                             (snd (place_structure xa ya pa s))) in
             _tiles t = <[Z.to_nat (yb * width s + xb) := Some pb]>
                          (<[Z.to_nat (ya * width s + xa) := Some pa]>
                             (_tiles s)) /\
             energy_storage t = energy_storage s /\
             unmet_demand t = unmet_demand s /\
             max_storage t
               == max_storage s + storage_capacity pa + storage_capacity pb /\
             cell_at t xb yb = Some pb /\ cell_at t xa ya = Some pa).
  { intros xa ya xb yb pa pb Hina Hinb Hca Hcb Hneq. cbn zeta.
    destruct (place_structure_empty_fields s xa ya pa Hwf Hina Hca)
      as (_ & Hw & Hh & Ht & He & Hm).
    pose proof (wf_place_structure s xa ya pa Hwf) as Hwf'.
    pose proof (place_structure_unmet s xa ya pa) as Hu.
    set (s1 := snd (place_structure xa ya pa s)) in *.
    assert (Hinb' : in_bounds s1 xb yb)
      by (unfold in_bounds; now rewrite Hw, Hh).
    assert (Hina' : in_bounds s1 xa ya)
      by (unfold in_bounds; now rewrite Hw, Hh).
    assert (Hcb' : cell_at s1 xb yb = None).
    { rewrite (cell_at_insert_other s s1 xa ya xb yb (Some pa)); assumption. }
    assert (Hca' : cell_at s1 xa ya = Some pa)
      by (now apply (cell_at_insert s s1)).
    destruct (place_structure_empty_fields s1 xb yb pb Hwf' Hinb' Hcb')
      as (_ & Hw2 & Hh2 & Ht2 & He2 & Hm2).
    split; [rewrite Ht2, Ht, Hw; reflexivity |].
    split; [congruence |].
    split; [rewrite place_structure_unmet; exact Hu |].
    split; [rewrite Hm2, Hm; reflexivity |].
    split; [now apply (cell_at_insert s1) |].
    rewrite (cell_at_insert_other s1 _ xb yb xa ya (Some pb));
      try assumption.
    intros [= -> ->]. now apply Hneq. }
  destruct (Hstep x1 y1 x2 y2 p1 p2 Hin1 Hin2 Hc1 Hc2)
    as (Hta & Hea & Hua & Hma & Hca2 & Hca1);
    [intros [= -> ->]; now apply Hne |].
  destruct (Hstep x2 y2 x1 y1 p2 p1 Hin2 Hin1 Hc2 Hc1 Hne)
    as (Htb & Heb & Hub & Hmb & _ & _).
  split; [exact Hca1 |]. split; [exact Hca2 |].
  split; [rewrite Hta, Htb; apply list_insert_insert_ne; congruence |].
  split; [congruence |]. split; [congruence |].
  rewrite Hma, Hmb. lra.
Qed.

Lemma placements_commute_witness :
  let a := run [Place 0 1 HABITAT_DOME; Place 1 1 SOLAR_PANEL] storage_board in
  let b := run [Place 1 1 SOLAR_PANEL; Place 0 1 HABITAT_DOME] storage_board in
  cell_at a 0 1 = Some HABITAT_DOME /\ cell_at a 1 1 = Some SOLAR_PANEL /\
  _tiles a = _tiles b /\
  energy_storage a = energy_storage b /\
  unmet_demand a = unmet_demand b /\
  max_storage a == max_storage b.
Proof.
  apply (placements_commute storage_board 0 1 1 1 HABITAT_DOME SOLAR_PANEL
           reachable_storage_board_any).
  - unfold in_bounds. repeat split; vm_compute; congruence.
  - unfold in_bounds. repeat split; vm_compute; congruence.
  - reflexivity.
  - reflexivity.
  - intros Heq. discriminate Heq.
Defined.

(** ** Turns *)

Lemma sum_populated_nonneg (f : Z -> Structure -> Q)
    (cells : list (Z * option Structure)) :
  (forall i st, 0 <= f i st) -> 0 <= sum_populated f cells.
Proof.
  intros Hf. induction cells as [| [i [st |]] cells IH]; cbn; [lra | | exact IH].
  specialize (Hf i st). lra.
Qed.

Lemma sum_populated_zero (f : Z -> Structure -> Q)
    (cells : list (Z * option Structure)) :
  (forall i st, f i st == 0) -> sum_populated f cells == 0.
Proof.
  intros Hf. induction cells as [| [i [st |]] cells IH]; cbn;
    [reflexivity | | exact IH].
  rewrite (Hf i st), IH. reflexivity.
Qed.

Lemma total_production_nonneg (s : GameState) (sunlight : Q) :
  0 <= total_production s sunlight.
Proof.
  unfold total_production. apply sum_populated_nonneg.
  intros i st. apply production_nonneg.
Qed.

Lemma production_blackout (st : Structure) (n : Z) : production st 0 n == 0.
Proof. unfold production, py_max. qcases; lra. Qed.

(** X10. On an engine a caller can hold, a turn without sunlight produces
    nothing, whatever stands on the board: the report's production is 0
    and its consumption is the upkeep of the placed structures plus the
    demand. *)
Theorem blackout_produces_nothing :
  forall (s : GameState) (demand : Q),
    reachable s -> 0 <= demand ->
    exists (r : EnergyReport) (s' : GameState),
      advance_turn 0 demand s = (Ok r, s') /\
      Report.production r == 0 /\
      Report.consumption r == total_upkeep s + demand.
Proof.
  intros s demand Hs Hdem. pose proof (reachable_with_wf _ s Hs) as Hwf.
  destruct (before_guard_spec s 0 demand Hwf ltac:(lra) Hdem)
    as (r & s2 & Hres & _ & _ & _ & HP & HU & _).
  exists r, (degenerate_guard s2).
  split; [now apply advance_turn_before_guard |].
  split; [| exact HU]. rewrite HP. unfold total_production.
  apply sum_populated_zero. intros i st. apply production_blackout.
Qed.

Lemma blackout_produces_nothing_witness :
  exists (r : EnergyReport) (s' : GameState),
    advance_turn 0 3 storage_board = (Ok r, s') /\
    Report.production r == 0 /\
    Report.consumption r == total_upkeep storage_board + 3.
Proof.
  apply (blackout_produces_nothing storage_board 3 reachable_storage_board_any).
  lra.
Defined.

(** X11. On the empty board the constructor returns, a turn with sunlight
    and demand of at least zero produces, stores, discharges and loses
    nothing: the whole demand is unmet, in the report and in the
    cumulative counter, and [energy_storage] and [max_storage] stay 0. *)
Theorem turn_on_new_board :
  forall (w h : Z) (s : GameState) (sunlight demand : Q),
    GameState_init w h = Ok s -> 0 <= sunlight -> 0 <= demand ->
    exists (r : EnergyReport) (s' : GameState),
      advance_turn sunlight demand s = (Ok r, s') /\
      Report.production r == 0 /\ Report.consumption r == demand /\
      Report.stored r == 0 /\ Report.discharged r == 0 /\
      Report.overflow r == 0 /\ Report.unmet_demand r == demand /\
      unmet_demand s' == demand /\
      energy_storage s' == 0 /\ max_storage s' == 0.
Proof.
  intros w h s sunlight demand Hinit Hsun Hdem.
  pose proof (wf_init w h s Hinit) as Hwf.
  pose proof (init_fields w h s Hinit) as Hs.
  assert (HP : total_production s sunlight = 0)
    by (unfold total_production, enumerate; rewrite Hs; cbn [_tiles];
        apply sum_populated_empty).
  assert (HU : total_upkeep s = 0)
    by (unfold total_upkeep, enumerate; rewrite Hs; cbn [_tiles];
        apply sum_populated_empty).
  assert (HM : total_capacity s = 0)
    by (unfold total_capacity, enumerate; rewrite Hs; cbn [_tiles];
        apply sum_populated_empty).
  assert (He : energy_storage s = 0) by now rewrite Hs.
  assert (Hu : unmet_demand s = 0) by now rewrite Hs.
  destruct (before_guard_spec s sunlight demand Hwf Hsun Hdem)
    as (r & s2 & Hres & _ & _ & _ & HrP & HrU & HrM & Hpos & Hneg).
  rewrite HP, HU, HM, He in *.
  destruct (guard_idle s sunlight demand Hwf) as [_ Hadv];
    [rewrite HM; lra | rewrite He; lra |].
  exists r, s2. split; [now rewrite Hadv |].
  split; [exact HrP |]. split; [rewrite HrU; lra |].
  destruct (Qlt_le_dec (0 - 0 - demand) 0) as [Hn | Hn].
  - destruct (Hneg Hn) as (Hd & He2 & Hun & Hcum & Hst & Hov).
    rewrite Hu in Hcum. revert Hd He2 Hun Hcum. min_cases; intros;
      repeat split; lra.
  - destruct (Hpos Hn) as (Hst & He2 & Hov & Hd & Hun & Hcum).
    rewrite Hu in Hcum. revert Hst He2 Hov. min_cases; intros;
      repeat split; try lra; rewrite Hcum; lra.
Qed.

Lemma turn_on_new_board_witness :
  exists (r : EnergyReport) (s' : GameState),
    advance_turn 1 2 board_2x2 = (Ok r, s') /\
    Report.production r == 0 /\ Report.consumption r == 2 /\
    Report.stored r == 0 /\ Report.discharged r == 0 /\
    Report.overflow r == 0 /\ Report.unmet_demand r == 2 /\
    unmet_demand s' == 2 /\
    energy_storage s' == 0 /\ max_storage s' == 0.
Proof.
  apply (turn_on_new_board 2 2 board_2x2 1 2 eq_refl); lra.
Defined.

(** X12. Under exact arithmetic (floats read as rationals), on an engine
    on which only structures with a storage capacity of at least zero
    have been placed, a turn with sunlight and demand of
    at least zero returns a report in which production, stored,
    discharged, overflow and unmet demand are all at least zero; it never
    both stores and discharges, and never both overflows and leaves
    demand unmet; it stores no more than the free capacity and
    discharges no more than what was stored. *)
Theorem report_flows_are_nonnegative :
  forall (s : GameState) (sunlight demand : Q),
    reachable_with capacity_nonneg s -> 0 <= sunlight -> 0 <= demand ->
    exists (r : EnergyReport) (s' : GameState),
      advance_turn sunlight demand s = (Ok r, s') /\
      0 <= Report.production r /\ 0 <= Report.stored r /\
      0 <= Report.discharged r /\ 0 <= Report.overflow r /\
      0 <= Report.unmet_demand r /\
      (Report.stored r == 0 \/ Report.discharged r == 0) /\
      (Report.overflow r == 0 \/ Report.unmet_demand r == 0) /\
      Report.stored r <= max_storage s - energy_storage s /\
      Report.discharged r <= energy_storage s.
Proof.
  intros s sunlight demand Hs Hsun Hdem.
  pose proof (reachable_storage_consistent s Hs) as Hcons.
  pose proof Hcons as (_ & _ & H0 & Hmax & _).
  destruct (turn_accounting_consistent s sunlight demand Hcons Hsun Hdem)
    as (r & s' & Hadv & HP & HU & Hpos & Hneg).
  exists r, s'. split; [exact Hadv |].
  pose proof (total_production_nonneg s sunlight) as HP0.
  split; [rewrite HP; exact HP0 |].
  destruct (Qlt_le_dec
              (total_production s sunlight - total_upkeep s - demand) 0)
    as [Hn | Hn].
  - destruct (Hneg Hn) as (Hd & _ & Hun & _ & Hst & Hov).
    revert Hd. min_cases; intros; repeat split; try lra;
      try (left; lra); try (right; lra).
  - destruct (Hpos Hn) as (Hst & _ & Hov & Hd & Hun).
    revert Hst. min_cases; intros; repeat split; try lra;
      try (left; lra); try (right; lra).
Qed.

Lemma report_flows_are_nonnegative_witness :
  exists (r : EnergyReport) (s' : GameState),
    advance_turn 1 2 storage_board = (Ok r, s') /\
    0 <= Report.production r /\ 0 <= Report.stored r /\
    0 <= Report.discharged r /\ 0 <= Report.overflow r /\
    0 <= Report.unmet_demand r /\
    (Report.stored r == 0 \/ Report.discharged r == 0) /\
    (Report.overflow r == 0 \/ Report.unmet_demand r == 0) /\
    Report.stored r <= max_storage storage_board - energy_storage storage_board /\
    Report.discharged r <= energy_storage storage_board.
Proof.
  apply (report_flows_are_nonnegative storage_board 1 2
           reachable_storage_board); lra.
Defined.

(** X13. Under exact arithmetic (floats read as rationals), on an engine
    on which only structures with a storage capacity of at least zero
    have been placed, energy overflows only into a full
    store and demand stays unmet only over an empty one: after a turn
    whose report has a positive overflow, [energy_storage] equals
    [max_storage]; after a turn whose report has a positive unmet
    demand, [energy_storage] is 0. *)
Theorem losses_only_at_the_limits :
  forall (s : GameState) (sunlight demand : Q),
    reachable_with capacity_nonneg s -> 0 <= sunlight -> 0 <= demand ->
    exists (r : EnergyReport) (s' : GameState),
      advance_turn sunlight demand s = (Ok r, s') /\
      (0 < Report.overflow r -> energy_storage s' == max_storage s') /\
      (0 < Report.unmet_demand r -> energy_storage s' == 0).
Proof.
  intros s sunlight demand Hs Hsun Hdem.
  pose proof (reachable_storage_consistent s Hs) as Hcons.
  pose proof Hcons as (_ & _ & H0 & Hmax & _).
  pose proof (advance_turn_max_storage s sunlight demand Hcons) as Hm.
  destruct (turn_accounting_consistent s sunlight demand Hcons Hsun Hdem)
    as (r & s' & Hadv & HP & HU & Hpos & Hneg).
  rewrite Hadv in Hm. cbn [snd] in Hm.
  exists r, s'. split; [exact Hadv |].
  destruct (Qlt_le_dec
              (total_production s sunlight - total_upkeep s - demand) 0)
    as [Hn | Hn].
  - destruct (Hneg Hn) as (Hd & He & Hun & _ & Hst & Hov).
    revert Hd. min_cases; intros; split; intros; lra.
  - destruct (Hpos Hn) as (Hst & He & Hov & Hd & Hun).
    revert Hst. min_cases; intros; split; intros; lra.
Qed.

Lemma losses_only_at_the_limits_witness :
  (exists (r : EnergyReport) (s' : GameState),
      advance_turn 10 0 storage_board = (Ok r, s') /\
      0 < Report.overflow r /\ energy_storage s' == max_storage s') /\
  (exists (r : EnergyReport) (s' : GameState),
      advance_turn 0 5 storage_board = (Ok r, s') /\
      0 < Report.unmet_demand r /\ energy_storage s' == 0).
Proof.
  split.
  - destruct (losses_only_at_the_limits storage_board 10 0
                reachable_storage_board ltac:(lra) ltac:(lra))
      as (r & s' & Hadv & Hfull & _).
    exists r, s'. split; [exact Hadv |].
    assert (Hpos : 0 < Report.overflow r).
    { pose proof Hadv as Hc. vm_compute in Hc. injection Hc as Hr _.
      rewrite <- Hr. vm_compute. reflexivity. }
    split; [exact Hpos | exact (Hfull Hpos)].
  - destruct (losses_only_at_the_limits storage_board 0 5
                reachable_storage_board ltac:(lra) ltac:(lra))
      as (r & s' & Hadv & _ & Hempty).
    exists r, s'. split; [exact Hadv |].
    assert (Hpos : 0 < Report.unmet_demand r).
    { pose proof Hadv as Hc. vm_compute in Hc. injection Hc as Hr _.
      rewrite <- Hr. vm_compute. reflexivity. }
    split; [exact Hpos | exact (Hempty Hpos)].
Defined.

(** ** Which exception, and in which order *)

(** X14. On an engine a caller can hold, the exception of a call is
    decided in the order of the checks, and nothing happens before it is
    raised: a placement or a removal off the board raises the
    outside-the-board [PlacementError] whatever the cells hold; on the
    board, a placement on an occupied cell raises the occupied one and a
    removal from an empty cell the empty one; a turn with negative
    sunlight raises the sunlight [ValueError] even when the demand is
    negative too, and the demand one only when the sunlight is fine.  In
    every other case the call returns: no [IndexError] and no
    [ZeroDivisionError] ever leaves these three calls. *)
Theorem exceptions_by_order_of_checks :
  forall s : GameState, reachable s ->
    (forall (x y : Z) (st : Structure),
        (~ in_bounds s x y ->
         place_structure x y st s = (Raise PlacementError_outside, s)) /\
        (in_bounds s x y -> cell_at s x y <> None ->
         place_structure x y st s = (Raise PlacementError_occupied, s)) /\
        (in_bounds s x y -> cell_at s x y = None ->
         fst (place_structure x y st s) = Ok tt)) /\
    (forall x y : Z,
        (~ in_bounds s x y ->
         remove_structure x y s = (Raise PlacementError_outside, s)) /\
        (in_bounds s x y -> cell_at s x y = None ->
         remove_structure x y s = (Raise PlacementError_empty, s)) /\
        (in_bounds s x y -> cell_at s x y <> None ->
         fst (remove_structure x y s) = Ok tt)) /\
    (forall sunlight demand : Q,
        (sunlight < 0 ->
         advance_turn sunlight demand s = (Raise ValueError_sunlight, s)) /\
        (0 <= sunlight -> demand < 0 ->
         advance_turn sunlight demand s = (Raise ValueError_demand, s)) /\
        (0 <= sunlight -> 0 <= demand ->
         exists r, fst (advance_turn sunlight demand s) = Ok r)).
Proof.
  intros s Hs. pose proof (reachable_with_wf _ s Hs) as Hwf.
  split; [| split].
  - intros x y st. split; [apply place_structure_outside |]. split.
    + intros Hin Hocc. destruct (cell_at s x y) as [other |] eqn:Hcell;
        [| contradiction].
      now apply (place_structure_occupied s x y st other).
    + intros Hin Hcell. now rewrite place_structure_empty.
  - intros x y. split; [apply remove_structure_outside |]. split.
    + intros Hin Hcell. now apply remove_structure_empty.
    + intros Hin Hocc. destruct (cell_at s x y) as [st |] eqn:Hcell;
        [| contradiction].
      now rewrite (remove_structure_occupied s x y st).
  - intros sunlight demand. split; [| split].
    + intros Hsun. unfold advance_turn.
      destruct (Qlt_bool sunlight 0) eqn:E; [reflexivity |].
      apply Qlt_bool_false in E. lra.
    + intros Hsun Hdem. unfold advance_turn.
      destruct (Qlt_bool sunlight 0) eqn:E1;
        [apply Qlt_bool_true in E1; lra |].
      destruct (Qlt_bool demand 0) eqn:E2; [reflexivity |].
      apply Qlt_bool_false in E2. lra.
    + intros Hsun Hdem.
      destruct (before_guard_spec s sunlight demand Hwf Hsun Hdem)
        as (r & s2 & Hres & _).
      exists r. now rewrite (advance_turn_before_guard _ _ _ _ _ Hres).
Qed.

Lemma exceptions_by_order_of_checks_witness :
  place_structure 5 5 SOLAR_PANEL storage_board
    = (Raise PlacementError_outside, storage_board) /\
  place_structure 0 0 HABITAT_DOME storage_board
    = (Raise PlacementError_occupied, storage_board) /\
  remove_structure 1 1 storage_board
    = (Raise PlacementError_empty, storage_board) /\
  advance_turn (-1) (-1) storage_board
    = (Raise ValueError_sunlight, storage_board) /\
  advance_turn 1 (-1) storage_board
    = (Raise ValueError_demand, storage_board).
Proof.
  destruct (exceptions_by_order_of_checks storage_board
              reachable_storage_board_any) as (Hplace & Hremove & Hturn).
  split; [| split; [| split; [| split]]].
  - apply (Hplace 5%Z 5%Z SOLAR_PANEL). unfold in_bounds.
    intros [[_ Hx] _]. vm_compute in Hx. discriminate Hx.
  - apply (Hplace 0%Z 0%Z HABITAT_DOME).
    + unfold in_bounds. repeat split; vm_compute; congruence.
    + vm_compute. discriminate.
  - apply (Hremove 1%Z 1%Z).
    + unfold in_bounds. repeat split; vm_compute; congruence.
    + reflexivity.
  - apply (Hturn (-1) (-1)). lra.
  - apply (Hturn 1 (-1)); lra.
Defined.

(** ** The starter layout *)

(** X15. [with_defaults()] never raises.  The engine it returns is one a
    caller could have built with battery banks alone, so every property
    of such engines applies to it: a 3 by 3 board with a battery bank on
    [(1, 0)] and on [(0, 1)] and no other structure, no energy stored,
    no unmet demand, and a [max_storage] of twice a bank's capacity. *)
Theorem with_defaults_layout :
  exists s : GameState,
    with_defaults = Ok s /\
    reachable_with capacity_nonneg s /\
    width s = 3%Z /\ height s = 3%Z /\
    (forall x y : Z,
        cell_at s x y =
          if decide (x = 0%Z /\ y = 1%Z) then Some BATTERY_BANK
          else if decide (x = 1%Z /\ y = 0%Z) then Some BATTERY_BANK
          else None) /\
    energy_storage s = 0 /\ unmet_demand s = 0 /\
    max_storage s == 2 * storage_capacity BATTERY_BANK.
Proof.
  set (s0 := mkGameState 3 3 (replicate 9 None) 0 0 0).
  assert (Hinit : GameState_init 3 3 = Ok s0) by reflexivity.
  exists (run [Place 1 0 BATTERY_BANK; Place 0 1 BATTERY_BANK] s0).
  split; [reflexivity |].
  split.
  { apply reachable_run; [now apply (reach_init _ 3 3) |].
    constructor; [apply catalog_capacity_nonneg |].
    constructor; [apply catalog_capacity_nonneg |]. constructor. }
  destruct (two_placed 3 3 s0 1 0 0 1 BATTERY_BANK BATTERY_BANK Hinit)
    as (_ & Hw & Hh & _ & He & Hm & Hcell).
  - unfold in_bounds. cbn. lia.
  - unfold in_bounds. cbn. lia.
  - lia.
  - split; [exact Hw |]. split; [exact Hh |]. split; [exact Hcell |].
    split; [exact He |]. split; [reflexivity |]. rewrite Hm. lra.
Qed.

(** ** More on the production formula *)

Lemma inject_Z_le (n m : Z) : (n <= m)%Z -> inject_Z n <= inject_Z m.
Proof. intros H. now rewrite <- Zle_Qle. Qed.

(** X16. With an adjacency bonus and a sunlight of at least zero, a
    structure never produces less for having more neighbours of its
    type. *)
Theorem production_grows_with_neighbours :
  forall (st : Structure) (sunlight : Q) (n m : Z),
    0 <= adjacency_bonus st -> 0 <= sunlight -> (n <= m)%Z ->
    production st sunlight n <= production st sunlight m.
Proof.
  intros st sunlight n m Hbonus Hsun Hnm.
  apply inject_Z_le in Hnm. unfold production.
  set (b := base_production st). set (a := adjacency_bonus st) in *.
  set (qn := inject_Z n) in *. set (qm := inject_Z m) in *.
  assert (Hmono : (b + a * qn) * sunlight <= (b + a * qm) * sunlight).
  { apply Qmult_le_compat_r; [| exact Hsun].
    pose proof (Qmult_le_compat_r qn qm a Hnm Hbonus). lra. }
  unfold py_max. qcases; lra.
Qed.

Lemma production_grows_with_neighbours_witness :
  production SOLAR_PANEL 1 1 <= production SOLAR_PANEL 1 3.
Proof.
  apply production_grows_with_neighbours.
  - vm_compute. discriminate.
  - lra.
  - lia.
Defined.

(** X17. Under exact arithmetic (floats read as rationals), on an engine
    on which only structures with a storage capacity of at least zero
    have been placed, a turn with sunlight and demand
    of at least zero keeps the books: what [energy_storage] gained over
    the turn is the report's net (production minus consumption) less the
    overflow plus the unmet demand. *)
Theorem energy_ledger_of_a_turn :
  forall (s : GameState) (sunlight demand : Q),
    reachable_with capacity_nonneg s -> 0 <= sunlight -> 0 <= demand ->
    exists (r : EnergyReport) (s' : GameState),
      advance_turn sunlight demand s = (Ok r, s') /\
      energy_storage s' - energy_storage s ==
        Report.net r - Report.overflow r + Report.unmet_demand r.
Proof.
  intros s sunlight demand Hs Hsun Hdem.
  pose proof (reachable_storage_consistent s Hs) as Hcons.
  destruct (turn_accounting_consistent s sunlight demand Hcons Hsun Hdem)
    as (r & s' & Hadv & HP & HU & Hpos & Hneg).
  exists r, s'. split; [exact Hadv |]. unfold Report.net.
  destruct (Qlt_le_dec
              (total_production s sunlight - total_upkeep s - demand) 0)
    as [Hn | Hn].
  - destruct (Hneg Hn) as (_ & He & Hun & _ & _ & Hov). lra.
  - destruct (Hpos Hn) as (_ & He & Hov & _ & Hun). lra.
Qed.

Lemma energy_ledger_of_a_turn_witness :
  exists (r : EnergyReport) (s' : GameState),
    advance_turn 1 2 storage_board = (Ok r, s') /\
    energy_storage s' - energy_storage storage_board ==
      Report.net r - Report.overflow r + Report.unmet_demand r.
Proof.
  apply (energy_ledger_of_a_turn storage_board 1 2 reachable_storage_board);
    lra.
Defined.
